(** * Baseball statistics widget: data retrieval, normalisation, filtering
      and report captions of [widget.py], embedded and verified.

    The script is a Streamlit page.  Its logic lives in

    - [fetch]                         (one HTTP GET, lines 54-65),
    - [get_batting_stats] and its two siblings (lines 72-89),
    - [clean_batting_df] and its two siblings  (lines 96-139),
    - the caption built by [add_title_and_table] (lines 177-186),
    - the three filter blocks at module level  (lines 275-301).

    Python values, the [requests] response and the pandas table are
    modelled below as far as these functions use them. *)

From Stdlib Require Import String Ascii List ZArith QArith Bool Arith Lia.
From Stdlib Require Import Permutation Sorted DecimalString.
Import ListNotations.
Set Warnings "-register-all".
Close Scope Q_scope.
Local Open Scope string_scope.
Local Open Scope list_scope.

(** String concatenation, as Python's [+] and f-strings. *)
Infix "+++" := String.append (at level 60, right associativity).

(* ===================================================================== *)
(** ** Python values, exceptions and results *)
(* ===================================================================== *)

Module Py.

(** What [response.json()] can build: [None], booleans, numbers, strings,
    lists and dicts.  A dict keeps its insertion order, so it is an
    association list (keys are distinct when it comes from a parser).
    Numbers are rationals: a float is represented by the value its decimal
    literal denotes, rounding is not modelled.  [VNaN] is the float
    not-a-number that pandas uses for a missing cell. *)
Inductive value : Type :=
| VNone
| VBool (b : bool)
| VNum (q : Q)
| VNaN
| VStr (s : string)
| VList (l : list value)
| VDict (d : list (string * value)).

Inductive exn : Type :=
| HTTPError (msg : string)
| ConnectionError
| Timeout
| JSONDecodeError
| UnboundLocalError
| AttributeError
| KeyError (key : string)
| TypeError
| ValueError.

(** A call either returns or raises. *)
Inductive result (A : Type) : Type :=
| Ok (a : A)
| Raise (e : exn).
Arguments Ok {A} a.
Arguments Raise {A} e.

Definition bind {A B} (r : result A) (k : A -> result B) : result B :=
  match r with
  | Ok a => k a
  | Raise e => Raise e
  end.

Fixpoint lookup (k : string) (d : list (string * value)) : option value :=
  match d with
  | [] => None
  | (k', v) :: d' => if String.eqb k k' then Some v else lookup k d'
  end.

(** [d[k] = v] on a dict: an existing key keeps its place. *)
Fixpoint dict_set (k : string) (v : value) (d : list (string * value))
  : list (string * value) :=
  match d with
  | [] => [(k, v)]
  | (k', v') :: d' =>
      if String.eqb k k' then (k, v) :: d' else (k', v') :: dict_set k v d'
  end.

(** [o.get(k, default)]: only a dict has the method. *)
Definition get (o : value) (k : string) (default : value) : result value :=
  match o with
  | VDict d => Ok (match lookup k d with Some v => v | None => default end)
  | _ => Raise AttributeError
  end.

Definition isinstance_dict (o : value) : bool :=
  match o with VDict _ => true | _ => false end.

Definition isinstance_list (o : value) : bool :=
  match o with VList _ => true | _ => false end.

Fixpoint chars (s : string) : list value :=
  match s with
  | EmptyString => []
  | String c s' => VStr (String c EmptyString) :: chars s'
  end.

(** [for x in o]: a list yields its items, a dict its keys, a string its
    characters; nothing else is iterable. *)
Definition iterate (o : value) : result (list value) :=
  match o with
  | VList l => Ok l
  | VDict d => Ok (map (fun kv => VStr (fst kv)) d)
  | VStr s => Ok (chars s)
  | _ => Raise TypeError
  end.

(** [o[k] = v]: on a dict it stores; a list wants an integer index and the
    other values are immutable. *)
Definition setitem (o : value) (k : string) (v : value) : result value :=
  match o with
  | VDict d => Ok (VDict (dict_set k v d))
  | _ => Raise TypeError
  end.

(** [cell == s] for a string [s]. *)
Definition eq_str (o : value) (s : string) : bool :=
  match o with VStr s' => String.eqb s' s | _ => false end.

(** Truth value of a selection that is a string or [None]. *)
Definition truthy (o : option string) : bool :=
  match o with
  | None => false
  | Some s => negb (String.eqb s "")
  end.

Definition startswith (s p : string) : bool := String.prefix p s.

(** Size of a value, for arguments by containment. *)
Fixpoint size (v : value) : nat :=
  match v with
  | VList l => S (fold_right (fun x n => size x + n) 0 l)
  | VDict d => S (fold_right (fun kv n => size (snd kv) + n) 0 d)
  | _ => 1
  end.

End Py.

Import Py.

Declare Scope py_scope.
Notation "x <- c ;; k" := (Py.bind c (fun x => k))
  (at level 61, c at next level, right associativity) : py_scope.
Local Open Scope py_scope.

(* ===================================================================== *)
(** ** The [requests] library as [fetch] uses it *)
(* ===================================================================== *)

Module Requests.

Record Response : Type := mkResponse {
  status_code : Z;
  reason : string;
  (** the body parsed as JSON, [None] when it is not JSON *)
  json_body : option value
}.

(** [requests.get(url, headers=...)]: a response arrives, or the call
    raises (no route, timeout, ...). *)
Inductive get_outcome : Type :=
| Responded (r : Response)
| GetRaised (e : exn).

Definition show_Z (z : Z) : string := NilZero.string_of_int (Z.to_int z).

(** [Response.raise_for_status()]: an [HTTPError] for a 4xx or 5xx status,
    nothing otherwise. *)
Definition raise_for_status (url : string) (r : Response) : result unit :=
  if (400 <=? status_code r)%Z && (status_code r <? 500)%Z then
    Raise (HTTPError (show_Z (status_code r) +++ " Client Error: " +++ reason r
                      +++ " for url: " +++ url))
  else if (500 <=? status_code r)%Z && (status_code r <? 600)%Z then
    Raise (HTTPError (show_Z (status_code r) +++ " Server Error: " +++ reason r
                      +++ " for url: " +++ url))
  else Ok tt.

(** [Response.json()] *)
Definition json (r : Response) : result value :=
  match json_body r with
  | Some v => Ok v
  | None => Raise JSONDecodeError
  end.

End Requests.

Import Requests.

(* ===================================================================== *)
(** ** [fetch] *)
(* ===================================================================== *)

Definition BASE_URL : string := "https://api.pointstreak.com".

(** What a call leaves behind: its result and the lines it printed. *)
Record outcome (A : Type) : Type := mkOutcome {
  ret : result A;
  printed : list string
}.
Arguments mkOutcome {A} ret printed.
Arguments ret {A} o.
Arguments printed {A} o.

Section Fetch.

(** The network: what [requests.get] does for a URL. *)
Variable requests_get : string -> get_outcome.

(** [fetch(endpoint)].  The [try] body is [get], [raise_for_status],
    [json]; the only handler is for [HTTPError].  The handler reads
    [response], which is unbound when [get] itself raised. *)
Definition fetch (endpoint : string) : outcome value :=
  let url := BASE_URL +++ "/" +++ endpoint in
  match requests_get url with
  | GetRaised (HTTPError _) => mkOutcome (Raise UnboundLocalError) []
  | GetRaised e => mkOutcome (Raise e) []
  | Responded response =>
      match raise_for_status url response with
      | Ok _ => mkOutcome (json response) []
      | Raise (HTTPError e) =>
          if (status_code response =? 404)%Z
          then mkOutcome (Ok (VDict [])) ["404 Not Found: " +++ url]
          else mkOutcome (Ok (VDict [])) ["Error fetching " +++ url +++ ": " +++ e]
      | Raise e => mkOutcome (Raise e) []
      end
  end.

End Fetch.

(* ===================================================================== *)
(** ** The pandas table *)
(* ===================================================================== *)

Module Pandas.

(** A row keeps the index label it was created with; filtering and sorting
    move rows around but never relabel them. *)
Record row : Type := mkRow {
  label : nat;
  cells : list value
}.

(** Column labels in order, and the rows; [cells] of a row is aligned with
    [columns].  Labels may repeat, as pandas allows. *)
Record DataFrame : Type := mkDF {
  columns : list string;
  rows : list row
}.

Definition empty : DataFrame := mkDF [] [].

Definition mem (c : string) (cs : list string) : bool :=
  existsb (String.eqb c) cs.

Definition count (c : string) (cs : list string) : nat :=
  length (filter (String.eqb c) cs).

(** Position of the first column labelled [c]. *)
Fixpoint col_pos (c : string) (cs : list string) : option nat :=
  match cs with
  | [] => None
  | c' :: cs' =>
      if String.eqb c c' then Some 0
      else match col_pos c cs' with Some n => Some (S n) | None => None end
  end.

(** Positions of all the columns labelled [c]. *)
Fixpoint positions_from (n : nat) (c : string) (cs : list string) : list nat :=
  match cs with
  | [] => []
  | c' :: cs' =>
      if String.eqb c c' then n :: positions_from (S n) c cs'
      else positions_from (S n) c cs'
  end.

Definition positions (c : string) (cs : list string) : list nat :=
  positions_from 0 c cs.

Definition cell (p : nat) (r : row) : value := nth p (cells r) VNaN.

(** *** Construction from records *)

Definition keys (d : list (string * value)) : list string := map fst d.

Fixpoint add_new (acc ks : list string) : list string :=
  match ks with
  | [] => acc
  | k :: ks' => if mem k acc then add_new acc ks' else add_new (acc ++ [k]) ks'
  end.

(** Columns of [pd.DataFrame(list of dicts)]: every key, in the order of
    its first appearance. *)
Definition record_columns (recs : list (list (string * value))) : list string :=
  fold_left (fun acc d => add_new acc (keys d)) recs [].

Fixpoint number_rows (n : nat) (cs : list string)
  (recs : list (list (string * value))) : list row :=
  match recs with
  | [] => []
  | d :: recs' =>
      mkRow n (map (fun c => match lookup c d with
                             | Some v => v
                             | None => VNaN
                             end) cs)
      :: number_rows (S n) cs recs'
  end.

(** A column that, nulls aside, holds numbers only, or strings only, gets a
    numeric or a string type, and in such a column a null is stored as a
    missing cell; in any other column it stays [None].  (A column of
    strings is typed so by the string type of current pandas; earlier
    versions keep the null there.) *)
Definition numbers_only (vs : list value) : bool :=
  forallb (fun v => match v with VNum _ | VNaN | VNone => true | _ => false end) vs
  && existsb (fun v => match v with VNum _ | VNaN => true | _ => false end) vs.

Definition strings_only (vs : list value) : bool :=
  forallb (fun v => match v with VStr _ | VNaN | VNone => true | _ => false end) vs
  && existsb (fun v => match v with VStr _ => true | _ => false end) vs.

Definition null_is_missing (recs : list (list (string * value))) (c : string)
  : bool :=
  let vs := map (fun d => match lookup c d with
                          | Some v => v
                          | None => VNaN
                          end) recs in
  numbers_only vs || strings_only vs.

Definition stored (missing : bool) (v : value) : value :=
  match v with
  | VNone => if missing then VNaN else VNone
  | _ => v
  end.

Definition settle (flags : list bool) (vs : list value) : list value :=
  map (fun bv => stored (fst bv) (snd bv)) (combine flags vs).

(** [pd.DataFrame(recs)] for a list of dicts: a key a record lacks gives a
    missing cell; rows are labelled 0, 1, 2, ... *)
Definition from_records (recs : list (list (string * value))) : DataFrame :=
  let cs := record_columns recs in
  let flags := map (null_is_missing recs) cs in
  mkDF cs (map (fun r => mkRow (label r) (settle flags (cells r)))
               (number_rows 0 cs recs)).

Fixpoint as_records (l : list value) : option (list (list (string * value))) :=
  match l with
  | [] => Some []
  | VDict d :: l' =>
      match as_records l' with Some ds => Some (d :: ds) | None => None end
  | _ :: _ => None
  end.

(** *** Column operations used by the cleaning functions *)

(** [df[c] = df[c].apply(f)] for a label [c] that occurs once. *)
Definition apply_cells (c : string) (f : value -> value)
  (cs : list string) (vs : list value) : list value :=
  map (fun cv => if String.eqb c (fst cv) then f (snd cv) else snd cv)
      (combine cs vs).

Definition apply_column (c : string) (f : value -> value) (df : DataFrame)
  : DataFrame :=
  mkDF (columns df)
       (map (fun r => mkRow (label r) (apply_cells c f (columns df) (cells r)))
            (rows df)).

(** [df[[labels at positions ps]]] *)
Definition take_positions (ps : list nat) (df : DataFrame) : DataFrame :=
  mkDF (map (fun p => nth p (columns df) "") ps)
       (map (fun r => mkRow (label r) (map (fun p => cell p r) ps)) (rows df)).

Fixpoint kept_positions (n : nat) (gone : list string) (cs : list string)
  : list nat :=
  match cs with
  | [] => []
  | c :: cs' =>
      if mem c gone then kept_positions (S n) gone cs'
      else n :: kept_positions (S n) gone cs'
  end.

(** [df.drop(columns=gone)], every label of [gone] being present. *)
Definition drop (gone : list string) (df : DataFrame) : DataFrame :=
  take_positions (kept_positions 0 gone (columns df)) df.

Definition set_columns (cs : list string) (df : DataFrame) : DataFrame :=
  mkDF cs (rows df).

(** [df[order]] for a list of labels: each label brings every column that
    carries it. *)
Definition select (order : list string) (df : DataFrame) : DataFrame :=
  take_positions (flat_map (fun c => positions c (columns df)) order) df.

(** *** [pd.to_numeric(..., errors="coerce")] *)

Definition digit (c : ascii) : option Z :=
  let n := nat_of_ascii c in
  if (48 <=? n)%nat && (n <=? 57)%nat then Some (Z.of_nat (n - 48)) else None.

(** Reads a run of digits: the number so far, how many digits were read,
    and what follows. *)
Fixpoint digits (s : string) (acc : Z) (n : nat) : Z * nat * string :=
  match s with
  | EmptyString => (acc, n, s)
  | String c s' =>
      match digit c with
      | Some d => digits s' (10 * acc + d)%Z (S n)
      | None => (acc, n, s)
      end
  end.

Definition sign (s : string) : bool * string :=
  match s with
  | String "-" s' => (true, s')
  | String "+" s' => (false, s')
  | _ => (false, s)
  end.

Definition exponent (s : string) : option Z :=
  match s with
  | EmptyString => Some 0%Z
  | String c s' =>
      if Ascii.eqb c "e" || Ascii.eqb c "E" then
        let '(neg, s1) := sign s' in
        match digits s1 0%Z 0 with
        | (_, O, _) => None
        | (e, _, EmptyString) => Some (if neg then (- e)%Z else e)
        | _ => None
        end
      else None
  end.

Definition scale (m e : Z) : Q :=
  if (0 <=? e)%Z then Qred (inject_Z (m * 10 ^ e))
  else Qred (Qmake m (Z.to_pos (10 ^ (- e)))).

(** The decimal literals read as a number: an optional sign, digits with
    an optional fraction part (or a bare fraction part), an optional
    exponent.  Any other string does not parse here; pandas reads more
    (surrounding blanks, the spellings of infinity), so where a property
    below names the number a string becomes, the string is a plain
    literal ([plain_decimal]). *)
Definition parse_float (s : string) : option Q :=
  let '(neg, s1) := sign s in
  let '(m1, n1, s2) := digits s1 0%Z 0 in
  let '(m, n2, s3) :=
    match s2 with
    | String "." s2' => digits s2' m1 0
    | _ => (m1, 0, s2)
    end in
  if (n1 + n2 =? 0)%nat then None
  else match exponent s3 with
       | Some e => Some (scale (if neg then (- m)%Z else m) (e - Z.of_nat n2))
       | None => None
       end.

(** One cell under [errors="coerce"]: numbers stay, booleans count as 1
    and 0, a string is parsed, and whatever is not a number becomes
    missing.  The result is always of a numeric type; it is the value
    pandas gives for plain literals and missing cells, which is all that
    the properties below take from it. *)
Definition to_numeric (v : value) : value :=
  match v with
  | VNum q => VNum q
  | VBool b => VNum (if b then 1 else 0)
  | VStr s => match parse_float s with Some q => VNum q | None => VNaN end
  | _ => VNaN
  end.

(** The loop [for col in numeric_cols: if col in df.columns: df[col] =
    pd.to_numeric(df[col], errors="coerce")].  When the label occurs more
    than once [df[col]] is a frame and [to_numeric] rejects it.  (An
    integer too large for a float makes pandas raise [OverflowError]; that
    path is not covered here, and the properties below are about the
    tables the loop returns.) *)
Fixpoint coerce_numeric (numeric_cols : list string) (df : DataFrame)
  : result DataFrame :=
  match numeric_cols with
  | [] => Ok df
  | c :: cs =>
      if mem c (columns df) then
        if (count c (columns df) =? 1)%nat
        then coerce_numeric cs (apply_column c to_numeric df)
        else Raise TypeError
      else coerce_numeric cs df
  end.

(** *** Row selection and sorting *)

(** [df[df[c] == s]]: the rows whose cell in column [c] is the string [s];
    the labels of the frame are distinct here. *)
Definition filter_eq (c s : string) (df : DataFrame) : result DataFrame :=
  match col_pos c (columns df) with
  | None => Raise (KeyError c)
  | Some p => Ok (mkDF (columns df)
                       (filter (fun r => eq_str (cell p r) s) (rows df)))
  end.

(** The key of a row in a numeric column: its number, or nothing when the
    cell is missing. *)
Definition sort_key (p : nat) (r : row) : option Q :=
  match cell p r with
  | VNum q => Some q
  | _ => None
  end.

Definition has_key (p : nat) (r : row) : bool :=
  match sort_key p r with Some _ => true | None => false end.

Definition key_ge (p : nat) (a b : row) : Prop :=
  match sort_key p a, sort_key p b with
  | Some x, Some y => (y <= x)%Q
  | _, _ => True
  end.

(** What [sort_values(by=c, ascending=False)] promises about the rows with
    its default arguments [kind="quicksort"], [na_position="last"]: the
    rows that have a value come first, rearranged into descending order,
    and the rows without one follow in the order they had.  The default
    sort kind is not a stable one, so nothing more is fixed about rows
    with equal values. *)
Definition sorted_desc (p : nat) (input output : list row) : Prop :=
  exists front,
    output = front ++ filter (fun r => negb (has_key p r)) input /\
    Permutation (filter (has_key p) input) front /\
    StronglySorted (key_ge p) front.

(** [df.sort_values(by=c, ascending=False)] on a numeric column [c] of a
    frame with distinct labels. *)
Definition sort_values_desc (c : string) (df : DataFrame)
  (r : result DataFrame) : Prop :=
  match col_pos c (columns df) with
  | None => r = Raise (KeyError c)
  | Some p => exists out, r = Ok (mkDF (columns df) out) /\
                          sorted_desc p (rows df) out
  end.

End Pandas.

Import Pandas.

(** [pd.DataFrame(data)].  A list of dicts gives one row per dict.  What
    the constructor does with any other argument is left open: [other]
    stands for it, and nothing below depends on what it is. *)
Definition DataFrame_of (other : value -> result DataFrame) (data : value)
  : result DataFrame :=
  match data with
  | VList l =>
      match as_records l with
      | Some recs => Ok (from_records recs)
      | None => other data
      end
  | _ => other data
  end.

(* ===================================================================== *)
(** ** Data retrieval: the three extractors *)
(* ===================================================================== *)

(** [data.get("stats", {}).get(category, {}).get("player", [])] *)
Definition player_path (category : string) (data : value) : result value :=
  stats <- get data "stats" (VDict []) ;;
  cat <- get stats category (VDict []) ;;
  get cat "player" (VList []).

(** The inner loop of [get_fielding_stats], lines 86-88. *)
Fixpoint tag_players (position : value) (player_list players : list value)
  : result (list value) :=
  match player_list with
  | [] => Ok players
  | player :: rest =>
      lbl <- get position "position" VNone ;;
      player' <- setitem player "position" lbl ;;
      tag_players position rest (players ++ [player'])
  end.

(** The outer loop, lines 83-88. *)
Fixpoint collect_players (groups players : list value) : result (list value) :=
  match groups with
  | [] => Ok players
  | position :: rest =>
      player_list <- get position "player" (VList []) ;;
      players' <- match player_list with
                  | VList l => tag_players position l players
                  | _ => Ok players
                  end ;;
      collect_players rest players'
  end.

(** The list [players] that [get_fielding_stats] hands to the table
    constructor. *)
Definition fielding_players (data : value) : result (list value) :=
  stats <- get data "stats" (VDict []) ;;
  position <- get stats "position" (VList []) ;;
  groups <- iterate position ;;
  collect_players groups [].

Section Extractors.

Variable requests_get : string -> get_outcome.
Variable other : value -> result DataFrame.

(** The extractors once [fetch] has returned [data]. *)
Definition batting_of (data : value) : result DataFrame :=
  players <- player_path "batting" data ;; DataFrame_of other players.

Definition pitching_of (data : value) : result DataFrame :=
  players <- player_path "pitching" data ;; DataFrame_of other players.

Definition fielding_of (data : value) : result DataFrame :=
  players <- fielding_players data ;; DataFrame_of other (VList players).

Definition after_fetch {A} (o : outcome value) (k : value -> result A)
  : outcome A :=
  mkOutcome (data <- ret o ;; k data) (printed o).

Definition get_batting_stats (season_id : Z) : outcome DataFrame :=
  after_fetch
    (fetch requests_get ("baseball/season/stats/" +++ show_Z season_id +++ "/json"))
    batting_of.

Definition get_pitching_stats (season_id : Z) : outcome DataFrame :=
  after_fetch
    (fetch requests_get ("baseball/season/stats/" +++ show_Z season_id +++ "/json"))
    pitching_of.

Definition get_fielding_stats (season_id : Z) : outcome DataFrame :=
  after_fetch
    (fetch requests_get
       ("baseball/season/fieldingleaders/" +++ show_Z season_id +++ "/json"))
    fielding_of.

End Extractors.

(* ===================================================================== *)
(** ** Data cleaning: the three normalisers *)
(* ===================================================================== *)

(** Tables are objects: a function that assigns to a column of its
    argument changes the caller's table.  The store holds the tables, a
    reference is a position in it. *)
Definition ref : Type := nat.
Definition store : Type := list DataFrame.

Definition read (st : store) (r : ref) : DataFrame := nth r st Pandas.empty.

Fixpoint write (st : store) (r : ref) (df : DataFrame) : store :=
  match st, r with
  | [], _ => []
  | _ :: st', O => df :: st'
  | d :: st', S r' => d :: write st' r' df
  end.

Definition alloc (st : store) (df : DataFrame) : store * ref :=
  (st ++ [df], length st).

(** [lambda x: x.get("$t") if isinstance(x, dict) else x] *)
Definition unwrap (x : value) : value :=
  match x with
  | VDict d => match lookup "$t" d with Some v => v | None => VNone end
  | _ => x
  end.

Definition upper_ascii (c : ascii) : ascii :=
  let n := nat_of_ascii c in
  if (97 <=? n)%nat && (n <=? 122)%nat then ascii_of_nat (n - 32) else c.

(** [col.upper()]; labels are ASCII. *)
Fixpoint upper (s : string) : string :=
  match s with
  | EmptyString => EmptyString
  | String c s' => String (upper_ascii c) (upper s')
  end.

Fixpoint assoc (k : string) (m : list (string * string)) : option string :=
  match m with
  | [] => None
  | (k', v) :: m' => if String.eqb k k' then Some v else assoc k m'
  end.

(** The constant tables in which the three functions differ. *)
Record tables : Type := mkTables {
  drop_cols : list string;
  rename_map : list (string * string);
  numeric_cols : list string;
  order : list string
}.

Definition batting_tables : tables := mkTables
  ["playerlinkid"; "playerid"; "firstname"; "lastname"]
  [("playername", "PLAYER"); ("teamname", "TEAM"); ("jersey", "JERSEY");
   ("position", "P")]
  ["AVG"; "AB"; "RUNS"; "HITS"; "HR"; "RBI"; "BB"; "HP"; "SO"; "SF"; "SB";
   "DP"; "BIB"; "TRIB"; "OBP"; "SLG"]
  ["PLAYER"; "JERSEY"; "TEAM"; "P"; "AVG"; "AB"; "RUNS"; "HITS"; "HR"; "RBI";
   "BB"; "HP"; "SO"; "SF"; "SB"; "DP"].

Definition pitching_tables : tables := mkTables
  ["playerlinkid"; "playerid"; "firstname"; "lastname"; "oobp"; "oslg"; "oavg"]
  [("playername", "PLAYER"); ("teamname", "TEAM"); ("jersey", "JERSEY");
   ("games", "G")]
  ["ERA"; "G"; "GS"; "CG"; "CGL"; "IP"; "HITS"; "RUNS"; "ER"; "BB"; "SO";
   "SV"; "BSV"; "WINS"; "LOSSES"; "BF"; "SHO"]
  ["PLAYER"; "JERSEY"; "TEAM"; "ERA"; "G"; "GS"; "CG"; "CGL"; "IP"; "HITS";
   "RUNS"; "ER"; "BB"; "SO"; "WINS"; "LOSSES"; "SV"; "BSV"].

Definition fielding_tables : tables := mkTables
  ["playerlinkid"]
  [("name", "PLAYER"); ("jersey", "JERSEY"); ("teamname", "TEAM");
   ("position", "P")]
  ["FPCT"; "GP"; "PO"; "A"]
  ["PLAYER"; "JERSEY"; "TEAM"; "P"; "FPCT"; "GP"; "PO"; "A"].

(** The first statement of each function: it assigns to the table it was
    given. *)
Definition unwrap_teamname (df : DataFrame) : DataFrame :=
  if mem "teamname" (columns df) then apply_column "teamname" unwrap df
  else df.

(** [df.drop(columns=[col for col in ... if col in df.columns])] *)
Definition drop_present (t : tables) (df : DataFrame) : DataFrame :=
  drop (filter (fun c => mem c (columns df)) (drop_cols t)) df.

(** [df.rename(columns=rename_map)] *)
Definition rename (t : tables) (df : DataFrame) : DataFrame :=
  set_columns
    (map (fun c => match assoc c (rename_map t) with
                   | Some c' => c'
                   | None => c
                   end) (columns df)) df.

(** [df.columns = [rename_map.get(col, col.upper()) for col in df.columns]] *)
Definition upper_columns (t : tables) (df : DataFrame) : DataFrame :=
  set_columns
    (map (fun c => match assoc c (rename_map t) with
                   | Some c' => c'
                   | None => upper c
                   end) (columns df)) df.

(** The [return] expression: the labels of [order] that are present, then
    the labels that are not in [order]. *)
Definition reorder (t : tables) (df : DataFrame) : DataFrame :=
  select (filter (fun c => mem c (columns df)) (order t)
          ++ filter (fun c => negb (mem c (order t))) (columns df)) df.

(** Everything after the first statement works on new tables. *)
Definition clean_rest (t : tables) (df : DataFrame) : result DataFrame :=
  df' <- coerce_numeric (numeric_cols t)
           (upper_columns t (rename t (drop_present t df))) ;;
  Ok (reorder t df').

(** A cleaning function on the store: the table at [df] is overwritten by
    the first statement, the returned table is a new object. *)
Definition clean_df (t : tables) (df : ref) (st : store)
  : result ref * store :=
  let st1 := write st df (unwrap_teamname (read st df)) in
  match clean_rest t (read st1 df) with
  | Ok out => let '(st2, r) := alloc st1 out in (Ok r, st2)
  | Raise e => (Raise e, st1)
  end.

Definition clean_batting_df : ref -> store -> result ref * store :=
  clean_df batting_tables.

Definition clean_pitching_df : ref -> store -> result ref * store :=
  clean_df pitching_tables.

Definition clean_fielding_df : ref -> store -> result ref * store :=
  clean_df fielding_tables.

(** A cleaning function called on a table nobody else holds, as at lines
    219-221: only the returned table matters. *)
Definition cleaned (t : tables) (df : DataFrame) : result DataFrame :=
  match clean_df t 0 [df] with
  | (Ok r, st) => Ok (read st r)
  | (Raise e, _) => Raise e
  end.

(* ===================================================================== *)
(** ** Report captions *)
(* ===================================================================== *)

(** [f"{x}"] for a selection that is a string or [None]. *)
Definition str (o : option string) : string :=
  match o with Some s => s | None => "None" end.

(** The caption that [add_title_and_table(title, df, filters)] builds,
    lines 178-185.  [batting_position] and [fielding_position] are the
    module-level selections it reads. *)
Definition filter_text (batting_position fielding_position : option string)
  (title : string) (filters : string * string * string) : string :=
  let '(team, player, sort) := filters in
  let text := "Filters: Team = " +++ team +++ ", Player = " +++ player
              +++ ", Sort = " +++ sort in
  if startswith title "Batting" && truthy batting_position then
    text +++ ", Position = " +++ str batting_position
  else if startswith title "Fielding" && truthy fielding_position then
    text +++ ", Position = " +++ str fielding_position
  else text.

Inductive category : Type := Batting | Fielding | Pitching.

(** The titles [generate_pdf] passes, lines 206-208. *)
Definition title (c : category) : string :=
  match c with
  | Batting => "Batting Stats"
  | Fielding => "Fielding Stats"
  | Pitching => "Pitching Stats"
  end.

(* ===================================================================== *)
(** ** Filtering and sorting *)
(* ===================================================================== *)

(** What the selectors of one category hold.  Pitching has no position
    selector; its [position] is not read. *)
Record selection : Type := mkSel {
  team : string;
  player : string;
  position : string;
  sort : string
}.

(** The equality filters of a block, e.g. lines 276-281. *)
Definition filter_rows (with_position : bool) (sel : selection)
  (data : DataFrame) : result DataFrame :=
  d1 <- (if negb (String.eqb (team sel) "All")
         then filter_eq "TEAM" (team sel) data else Ok data) ;;
  d2 <- (if negb (String.eqb (player sel) "All")
         then filter_eq "PLAYER" (player sel) d1 else Ok d1) ;;
  if with_position && negb (String.eqb (position sel) "All")
  then filter_eq "P" (position sel) d2 else Ok d2.

(** The last statement of a block, e.g. lines 282-283. *)
Definition sort_rows (sel : selection) (d : DataFrame) (r : result DataFrame)
  : Prop :=
  if negb (String.eqb (sort sel) "None")
  then sort_values_desc (sort sel) d r
  else r = Ok d.

Definition filter_block (with_position : bool) (data : DataFrame)
  (sel : selection) (r : result DataFrame) : Prop :=
  match filter_rows with_position sel data with
  | Ok d => sort_rows sel d r
  | Raise e => r = Raise e
  end.

(** [batting_filtered], [fielding_filtered] and [pitching_filtered] as
    relations between the table, the selection and what the block
    leaves in the variable (or the exception that ends it). *)
Definition batting_filtered : DataFrame -> selection -> result DataFrame -> Prop :=
  filter_block true.

Definition fielding_filtered : DataFrame -> selection -> result DataFrame -> Prop :=
  filter_block true.

Definition pitching_filtered : DataFrame -> selection -> result DataFrame -> Prop :=
  filter_block false.

Definition filtered (c : category)
  : DataFrame -> selection -> result DataFrame -> Prop :=
  match c with
  | Batting => batting_filtered
  | Fielding => fielding_filtered
  | Pitching => pitching_filtered
  end.

(** No constraint at all. *)
Definition no_selection : selection := mkSel "All" "All" "All" "None".

(** Labels are distinct: what the filters assume of a table. *)
Definition unique_columns (df : DataFrame) : Prop := NoDup (columns df).

(** The sort column holds numbers and missing cells only, as every column
    the sort selector offers does (lines 255, 262, 268). *)
Definition numeric_cell (v : value) : bool :=
  match v with VNum _ | VNaN => true | _ => false end.

Definition numeric_column (c : string) (df : DataFrame) : Prop :=
  match col_pos c (columns df) with
  | Some p => forall r, In r (rows df) -> numeric_cell (cell p r) = true
  | None => False
  end.

Definition key_is (p : nat) (q : Q) (r : row) : bool :=
  match sort_key p r with Some x => Qeq_bool x q | None => false end.

(** Rows with equal sort values are in the order they had before. *)
Definition ties_in_order (p : nat) (input output : list row) : Prop :=
  forall q, filter (key_is p q) output = filter (key_is p q) input.

(** Descending insertion that keeps equal values in order: one way to
    meet [sorted_desc]. *)
Definition key_geb (p : nat) (a b : row) : bool :=
  match sort_key p a, sort_key p b with
  | Some x, Some y => Qle_bool y x
  | _, _ => true
  end.

Fixpoint insert_desc (p : nat) (r : row) (l : list row) : list row :=
  match l with
  | [] => [r]
  | x :: l' => if key_geb p r x then r :: x :: l' else x :: insert_desc p r l'
  end.

Definition stable_sort_desc (p : nat) (input : list row) : list row :=
  fold_right (insert_desc p) [] (filter (has_key p) input)
  ++ filter (fun r => negb (has_key p r)) input.

(** *** Sample tables *)

(** Eighteen batters of one team, all with one home run. *)
Definition tied_rows : list row :=
  map (fun i => mkRow i [VStr ("Batter " +++ show_Z (Z.of_nat i));
                         VStr "Hawks"; VNum 1])
      (seq 0 18).

Definition tied_table : DataFrame := mkDF ["PLAYER"; "TEAM"; "HR"] tied_rows.

(** The same rows with those labelled 2 to 16 in reverse order. *)
Definition moved_rows : list row :=
  firstn 2 tied_rows ++ rev (firstn 15 (skipn 2 tied_rows)) ++ skipn 17 tied_rows.

Definition moved_table : DataFrame := mkDF ["PLAYER"; "TEAM"; "HR"] moved_rows.

Definition by_HR : selection := mkSel "All" "All" "All" "HR".

(** Scenario A of the specification. *)
Definition scenario_A : value :=
  VDict [("stats", VDict [("batting", VDict [("player", VList [
    VDict [("playername", VStr "J Smith");
           ("teamname", VDict [("$t", VStr "Hawks")]);
           ("jersey", VStr "7");
           ("avg", VStr ".345")]])])])].




(** A payload whose [stats] is [null]. *)
Definition null_stats : value := VDict [("stats", VNone)].

(** A table as the batting extractor builds it, with a plain team name. *)
Definition plain_team : DataFrame :=
  mkDF ["playername"; "teamname"] [mkRow 0 [VStr "J Smith"; VStr "Hawks"]].

Definition wrapped_team : DataFrame :=
  mkDF ["playername"; "teamname"]
       [mkRow 0 [VStr "J Smith"; VDict [("$t", VStr "Hawks")]]].

(** A network in which no request gets through, and one that answers
    every request with 404. *)
Definition unreachable (url : string) : get_outcome := GetRaised ConnectionError.

Definition not_found (url : string) : get_outcome :=
  Responded (mkResponse 404 "Not Found" None).

Definition tables_of (c : category) : tables :=
  match c with
  | Batting => batting_tables
  | Fielding => fielding_tables
  | Pitching => pitching_tables
  end.

Definition with_position (c : category) : bool :=
  match c with Pitching => false | _ => true end.

(** *** Shapes of payloads *)

(** A key is absent, or holds a value that passes [ok]. *)
Definition absent_or (ok : value -> bool) (k : string)
  (d : list (string * value)) : bool :=
  match lookup k d with
  | None => true
  | Some v => ok v
  end.

Definition dict_with (ok : list (string * value) -> bool) (v : value) : bool :=
  match v with VDict d => ok d | _ => false end.

Definition list_of_dicts (v : value) : bool :=
  match v with VList l => forallb isinstance_dict l | _ => false end.

(** The mappings on the path [stats.<category>.player] that are present are
    mappings, and [player], when present, is a list of mappings. *)
Definition player_path_ok (category : string) (data : value) : bool :=
  dict_with (absent_or (dict_with (absent_or (dict_with
    (absent_or list_of_dicts "player")) category)) "stats") data.

(** A position group: a mapping whose [player], when it is a list, holds
    mappings only. *)
Definition group_ok (g : value) : bool :=
  dict_with (absent_or (fun v => negb (isinstance_list v) || list_of_dicts v)
                       "player") g.

Definition groups_ok (v : value) : bool :=
  match v with VList gs => forallb group_ok gs | _ => false end.

Definition fielding_ok (data : value) : bool :=
  dict_with (absent_or (dict_with (absent_or groups_ok "position")) "stats") data.

Definition well_shaped (data : value) : bool :=
  player_path_ok "batting" data && player_path_ok "pitching" data
  && fielding_ok data.

(** *** The fielding extractor in the words of the specification *)

Definition group_label (g : value) : value :=
  match g with
  | VDict d => match lookup "position" d with Some v => v | None => VNone end
  | _ => VNone
  end.

Definition group_players (g : value) : option (list value) :=
  match g with
  | VDict d => match lookup "player" d with
               | Some (VList l) => Some l
               | _ => None
               end
  | _ => None
  end.

Definition tagged (lbl : value) (player : value) : value :=
  match player with
  | VDict d => VDict (dict_set "position" lbl d)
  | _ => player
  end.

(** One record per entry of the group's player list, with the group's
    label under [position]; nothing when there is no list. *)
Definition group_records (g : value) : list value :=
  match group_players g with
  | Some l => map (tagged (group_label g)) l
  | None => []
  end.

(** Every row has one cell per column. *)
Definition aligned (df : DataFrame) : Prop :=
  Forall (fun r => length (cells r) = length (columns df)) (rows df).

(** Some row holds a mapping in the column at [p]. *)
Definition has_wrapper (p : nat) (df : DataFrame) : Prop :=
  Exists (fun r => isinstance_dict (cell p r) = true) (rows df).

(** The whole output in descending order, the rows without a value last. *)
Definition desc_missing_last (p : nat) (a b : row) : Prop :=
  match sort_key p a, sort_key p b with
  | Some x, Some y => (y <= x)%Q
  | Some _, None => True
  | None, Some _ => False
  | None, None => True
  end.

(** No two different rows have equal values in the column at [p]. *)
Definition tie_free (p : nat) (l : list row) : Prop :=
  forall a b x y, In a l -> In b l ->
    sort_key p a = Some x -> sort_key p b = Some y -> (x == y)%Q -> a = b.

(** *** The equality filters, row by row *)

(** One equality filter seen from a row: does it let the row through? *)
Definition test (active : bool) (c s : string) (cs : list string) (r : row)
  : bool :=
  if active then
    match col_pos c cs with
    | Some p => eq_str (cell p r) s
    | None => false
    end
  else true.

Definition team_active (sel : selection) : bool :=
  negb (String.eqb (team sel) "All").

Definition player_active (sel : selection) : bool :=
  negb (String.eqb (player sel) "All").

Definition position_active (with_pos : bool) (sel : selection) : bool :=
  with_pos && negb (String.eqb (position sel) "All").

(** The rows that pass the active filters, in their order. *)
Definition kept (with_pos : bool) (sel : selection) (cs : list string)
  (rs : list row) : list row :=
  filter (test (position_active with_pos sel) "P" (position sel) cs)
    (filter (test (player_active sel) "PLAYER" (player sel) cs)
       (filter (test (team_active sel) "TEAM" (team sel) cs) rs)).

Definition absent (c : string) (cs : list string) : bool :=
  match col_pos c cs with Some _ => false | None => true end.

(** The first column an active filter needs and the table lacks. *)
Definition missing_column (with_pos : bool) (sel : selection)
  (cs : list string) : option string :=
  if team_active sel && absent "TEAM" cs then Some "TEAM"
  else if player_active sel && absent "PLAYER" cs then Some "PLAYER"
  else if position_active with_pos sel && absent "P" cs then Some "P"
  else None.

(** Three batters, one without a home-run figure. *)
Definition three_batters : DataFrame :=
  mkDF ["PLAYER"; "TEAM"; "HR"]
       [ mkRow 0 [VStr "Ann"; VStr "Hawks"; VNum 2];
         mkRow 1 [VStr "Bo"; VStr "Owls"; VNum 9];
         mkRow 2 [VStr "Cy"; VStr "Hawks"; VNaN];
         mkRow 3 [VStr "Di"; VStr "Hawks"; VNum 5] ].

Definition hawks_by_HR : selection := mkSel "Hawks" "All" "All" "HR".

Definition hawks_sorted : DataFrame :=
  mkDF ["PLAYER"; "TEAM"; "HR"]
       [ mkRow 3 [VStr "Di"; VStr "Hawks"; VNum 5];
         mkRow 0 [VStr "Ann"; VStr "Hawks"; VNum 2];
         mkRow 2 [VStr "Cy"; VStr "Hawks"; VNaN] ].

(** The cleaning function of a category. *)
Definition normaliser (c : category) : ref -> store -> result ref * store :=
  match c with
  | Batting => clean_batting_df
  | Fielding => clean_fielding_df
  | Pitching => clean_pitching_df
  end.

(* ===================================================================== *)
(** ** The selectors of the page *)
(* ===================================================================== *)

(** [df[c]] on a frame with distinct labels: the cells of the column, or
    [KeyError]. *)
Definition getitem (c : string) (df : DataFrame) : result (list value) :=
  match col_pos c (columns df) with
  | Some p => Ok (map (cell p) (rows df))
  | None => Raise (KeyError c)
  end.

Definition isna (v : value) : bool :=
  match v with VNaN | VNone => true | _ => false end.

(** [Series.dropna()] *)
Definition dropna (vs : list value) : list value :=
  filter (fun v => negb (isna v)) vs.

Fixpoint strings_of (vs : list value) : option (list string) :=
  match vs with
  | [] => Some []
  | VStr s :: vs' =>
      match strings_of vs' with Some ss => Some (s :: ss) | None => None end
  | _ :: _ => None
  end.

(** [Series.unique()] on strings: the values in the order of their first
    appearance. *)
Fixpoint unique (seen l : list string) : list string :=
  match l with
  | [] => []
  | s :: l' => if mem s seen then unique seen l' else s :: unique (s :: seen) l'
  end.

Fixpoint insert_str (s : string) (l : list string) : list string :=
  match l with
  | [] => [s]
  | x :: l' => if String.leb s x then s :: x :: l' else x :: insert_str s l'
  end.

(** [sorted(...)] on strings.  Strings compare character by character, and
    two strings that compare equal are the same string, so the way the
    sort proceeds does not show in its result. *)
Definition sorted_strings (l : list string) : list string :=
  fold_right insert_str [] l.

(** [sorted(column.unique())].  For a column of strings it is the list of
    its distinct values in ascending order; [other] stands for what the
    two calls do with any other column. *)
Definition sorted_unique (other : list value -> result (list value))
  (column : list value) : result (list value) :=
  match strings_of column with
  | Some ss => Ok (map VStr (sorted_strings (unique [] ss)))
  | None => other column
  end.

Section Selectors.

Variable other : list value -> result (list value).

(** Lines 252, 259, 266: [["All"] + sorted(data["TEAM"].unique())] *)
Definition team_options (data : DataFrame) : result (list value) :=
  column <- getitem "TEAM" data ;;
  values <- sorted_unique other column ;;
  Ok (VStr "All" :: values).

(** Lines 253, 260, 267 *)
Definition player_options (data : DataFrame) : result (list value) :=
  column <- getitem "PLAYER" data ;;
  values <- sorted_unique other column ;;
  Ok (VStr "All" :: values).

(** Lines 254, 261: [["All"] + sorted(data["P"].dropna().unique())] *)
Definition position_options (data : DataFrame) : result (list value) :=
  column <- getitem "P" data ;;
  values <- sorted_unique other (dropna column) ;;
  Ok (VStr "All" :: values).

End Selectors.

(* ===================================================================== *)
(** ** Notions used to state the properties *)
(* ===================================================================== *)

Definition is_ok {A} (r : result A) : bool :=
  match r with Ok _ => true | Raise _ => false end.

(** Walking down [path] from [v] meets mappings only and then a key that
    is missing. *)
Fixpoint stops_at (path : list string) (v : value) : bool :=
  match path with
  | [] => false
  | k :: rest =>
      match v with
      | VDict d => match lookup k d with
                   | None => true
                   | Some v' => stops_at rest v'
                   end
      | _ => false
      end
  end.

(** The labels a cleaning function gives to the columns it keeps, before
    it reorders them. *)
Definition renamed_columns (t : tables) (cs : list string) : list string :=
  columns (upper_columns t (rename t (drop_present t (mkDF cs [])))).

Definition is_lower (c : ascii) : bool :=
  (97 <=? nat_of_ascii c)%nat && (nat_of_ascii c <=? 122)%nat.

(** No letter a-z occurs in the string. *)
Fixpoint upper_case (s : string) : bool :=
  match s with
  | EmptyString => true
  | String c s' => negb (is_lower c) && upper_case s'
  end.

(** The cell of a row under a label. *)
Definition field (c : string) (df : DataFrame) (r : row) : value :=
  match col_pos c (columns df) with
  | Some p => cell p r
  | None => VNaN
  end.

(** The label a column of the input has in the cleaned table. *)
Definition new_label (t : tables) (c : string) : string :=
  let c1 := match assoc c (rename_map t) with Some c' => c' | None => c end in
  match assoc c1 (rename_map t) with
  | Some c' => c'
  | None => upper c1
  end.

(** Every cell under the label [c], wherever the label occurs, is a number
    or missing. *)
Definition numeric_under (c : string) (df : DataFrame) : Prop :=
  forall q r, nth_error (columns df) q = Some c -> In r (rows df) ->
              numeric_cell (cell q r) = true.



(** The row holds the record: every field of the record that is not null
    is the row's cell under the field's name. *)
Definition row_holds (df : DataFrame) (rec : value) (r : row) : Prop :=
  forall k v, get rec k VNone = Ok v -> v <> VNone -> field k df r = v.

(** Every character is below 128. *)
Fixpoint is_ascii (s : string) : bool :=
  match s with
  | EmptyString => true
  | String c s' => (nat_of_ascii c <? 128)%nat && is_ascii s'
  end.






(** A network that answers every request with the given status. *)
Definition answers (status : Z) (url : string) : get_outcome :=
  Responded (mkResponse status "" None).

(* ===================================================================== *)
(** * Properties *)
(* ===================================================================== *)

(** ** Fetching *)

Lemma raise_for_status_error url r :
  (400 <= status_code r < 600)%Z ->
  exists msg, raise_for_status url r = Raise (HTTPError msg).
Proof.
  intros H. unfold raise_for_status.
  destruct ((400 <=? status_code r)%Z && (status_code r <? 500)%Z) eqn:E1.
  - eexists. reflexivity.
  - destruct ((500 <=? status_code r)%Z && (status_code r <? 600)%Z) eqn:E2.
    + eexists. reflexivity.
    + exfalso.
      apply andb_false_iff in E1. apply andb_false_iff in E2.
      rewrite !Z.leb_gt, !Z.ltb_ge in *. lia.
Qed.

(** C1, as the code has it: when the request is answered with a 4xx or
    5xx status, [fetch] returns the empty mapping and prints exactly one
    line, the not-found line for 404 and the generic line otherwise. *)
Theorem fetch_http_error requests_get endpoint response :
  requests_get (BASE_URL +++ "/" +++ endpoint) = Responded response ->
  (400 <= status_code response < 600)%Z ->
  let o := fetch requests_get endpoint in
  ret o = Ok (VDict []) /\
  exists line, printed o = [line] /\
    ((status_code response = 404)%Z ->
       line = "404 Not Found: " +++ BASE_URL +++ "/" +++ endpoint) /\
    ((status_code response <> 404)%Z ->
       exists e, line = "Error fetching " +++ BASE_URL +++ "/" +++ endpoint
                        +++ ": " +++ e).
Proof.
  intros Hget Hst. unfold fetch. rewrite Hget.
  destruct (raise_for_status_error (BASE_URL +++ "/" +++ endpoint) response Hst)
    as [msg Hmsg].
  rewrite Hmsg.
  destruct (status_code response =? 404)%Z eqn:E; cbn.
  - split; [reflexivity|]. eexists. split; [reflexivity|].
    split; [reflexivity|]. apply Z.eqb_eq in E. intros; contradiction.
  - split; [reflexivity|]. eexists. split; [reflexivity|].
    apply Z.eqb_neq in E. split; [intros; contradiction|].
    intros _. exists msg. reflexivity.
Qed.

Lemma fetch_http_error_witness :
  let o := fetch not_found "baseball/season/stats/34102/json" in
  ret o = Ok (VDict []) /\
  exists line, printed o = [line] /\
    ((404 = 404)%Z ->
       line = "404 Not Found: " +++ BASE_URL +++ "/"
              +++ "baseball/season/stats/34102/json") /\
    ((404 <> 404)%Z ->
       exists e, line = "Error fetching " +++ BASE_URL +++ "/"
                        +++ "baseball/season/stats/34102/json" +++ ": " +++ e).
Proof.
  apply (fetch_http_error not_found "baseball/season/stats/34102/json"
           (mkResponse 404 "Not Found" None)).
  - reflexivity.
  - simpl. lia.
Defined.

(** C1 as stated fails: when the request itself raises (here a
    connection error) [fetch] lets the exception through and prints
    nothing. *)
Lemma fetch_network_error_raises :
  let o := fetch unreachable "baseball/season/stats/34102/json" in
  ret o = Raise ConnectionError /\ printed o = [] /\ ret o <> Ok (VDict []).
Proof.
  cbn. repeat split. discriminate.
Qed.

(** ** Cleaning an empty table *)

(** C2, as the code has it: for each category, the table built from an
    empty record list has no columns, and cleaning it gives a table with no
    rows and no columns. *)
Theorem clean_empty_has_no_columns (c : category) :
  from_records [] = mkDF [] [] /\
  cleaned (tables_of c) (from_records []) = Ok (mkDF [] []).
Proof.
  destruct c; split; reflexivity.
Qed.

(** C2 as stated fails: after an empty extraction the cleaned batting and
    fielding tables have no rows and none of the canonical columns. *)
Lemma clean_empty_lacks_canonical_columns :
  exists batting fielding,
    cleaned batting_tables (from_records []) = Ok batting /\
    cleaned fielding_tables (from_records []) = Ok fielding /\
    rows batting = [] /\ rows fielding = [] /\
    mem "PLAYER" (columns batting) = false /\
    mem "TEAM" (columns batting) = false /\
    mem "PLAYER" (columns fielding) = false /\
    mem "TEAM" (columns fielding) = false.
Proof.
  exists (mkDF [] []), (mkDF [] []). repeat split.
Qed.

(** Scenario C: when the service answers 404, the batting extractor
    returns the table without columns, the not-found line is printed, and
    the cleaned table has no columns either. *)
Lemma not_found_gives_empty_tables (other : value -> result DataFrame) :
  let o := get_batting_stats not_found other 34102 in
  ret o = Ok (mkDF [] []) /\
  printed o = ["404 Not Found: https://api.pointstreak.com/baseball/season/stats/34102/json"] /\
  (df <- ret o ;; cleaned batting_tables df) = Ok (mkDF [] []).
Proof.
  repeat split.
Qed.

(** ** Captions *)

Lemma append_empty (s : string) : s +++ "" = s.
Proof.
  induction s as [|a s IH]; simpl; [reflexivity | now rewrite IH].
Qed.

(** C4, as the code has it: the caption lists team, player and sort, and
    the Batting and Fielding captions end with the position selection
    whenever that selection is a non-empty string, the sentinel included;
    the Pitching caption never has a position entry. *)
Theorem caption_shape (batting_position fielding_position : option string)
  (c : category) (team player sort : string) :
  filter_text batting_position fielding_position (title c) (team, player, sort)
  = ("Filters: Team = " +++ team +++ ", Player = " +++ player
     +++ ", Sort = " +++ sort)
    +++ match c with
        | Batting => if truthy batting_position
                     then ", Position = " +++ str batting_position else ""
        | Fielding => if truthy fielding_position
                      then ", Position = " +++ str fielding_position else ""
        | Pitching => ""
        end.
Proof.
  destruct c; unfold filter_text; cbn [title].
  - change (startswith "Batting Stats" "Batting") with true. cbn [andb].
    destruct (truthy batting_position);
      [reflexivity | now rewrite append_empty].
  - change (startswith "Fielding Stats" "Batting") with false.
    change (startswith "Fielding Stats" "Fielding") with true. cbn [andb].
    destruct (truthy fielding_position);
      [reflexivity | now rewrite append_empty].
  - change (startswith "Pitching Stats" "Batting") with false.
    change (startswith "Pitching Stats" "Fielding") with false. cbn [andb].
    now rewrite append_empty.
Qed.

(** C4 as stated fails: with team Hawks, player All, position All and the
    sort column AVG, the Batting caption ends with the position entry. *)
Lemma caption_shows_all_position :
  filter_text (Some "All") (Some "All") (title Batting) ("Hawks", "All", "AVG")
  = "Filters: Team = Hawks, Player = All, Sort = AVG, Position = All" /\
  filter_text (Some "All") (Some "All") (title Batting) ("Hawks", "All", "AVG")
  <> "Filters: Team = Hawks, Player = All, Sort = AVG".
Proof.
  split; [reflexivity | discriminate].
Qed.

(** ** Scenario A *)

(** C9: extracting scenario A and cleaning the table gives one row with
    PLAYER "J Smith", TEAM "Hawks", JERSEY "7" and the number 0.345 under
    AVG. *)
Theorem scenario_A_row (other : value -> result DataFrame) :
  exists avg,
    (df <- batting_of other scenario_A ;; cleaned batting_tables df)
    = Ok (mkDF ["PLAYER"; "JERSEY"; "TEAM"; "AVG"]
               [mkRow 0 [VStr "J Smith"; VStr "7"; VStr "Hawks"; VNum avg]]) /\
    (avg == 345 # 1000)%Q.
Proof.
  exists (69 # 200)%Q. split; reflexivity.
Qed.

(** ** Filtering with no constraint *)

(** C6: with team, player and position at "All" and the sort at "None",
    each block leaves exactly the table it started from: same rows, same
    order. *)
Theorem no_selection_is_identity (c : category) (data : DataFrame)
  (r : result DataFrame) :
  filtered c data no_selection r <-> r = Ok data.
Proof.
  destruct c; cbn; tauto.
Qed.

(** ** Extraction *)



Lemma as_records_dicts l :
  forallb isinstance_dict l = true ->
  exists recs, as_records l = Some recs /\ length recs = length l.
Proof.
  induction l as [|v l IH]; simpl; intros H.
  - exists []. split; reflexivity.
  - apply andb_true_iff in H as [Hv Hl].
    destruct v; try discriminate.
    destruct (IH Hl) as [recs [E Hlen]]. rewrite E.
    exists (d :: recs). split; [reflexivity | simpl; now rewrite Hlen].
Qed.

Lemma number_rows_length n cs recs :
  length (number_rows n cs recs) = length recs.
Proof.
  revert n. induction recs as [|d recs IH]; intros n; simpl;
    [reflexivity | now rewrite IH].
Qed.

Lemma player_path_shaped category data :
  player_path_ok category data = true ->
  exists l, player_path category data = Ok (VList l) /\
            forallb isinstance_dict l = true.
Proof.
  unfold player_path_ok, player_path, dict_with, absent_or, get.
  destruct data as [| | | | | |d]; try discriminate. cbn [bind].
  destruct (lookup "stats" d) as [stats|];
    [|intros _; exists []; split; reflexivity].
  destruct stats as [| | | | | |s]; try discriminate. cbn [bind].
  destruct (lookup category s) as [cat|];
    [|intros _; exists []; split; reflexivity].
  destruct cat as [| | | | | |b]; try discriminate.
  destruct (lookup "player" b) as [p|];
    [|intros _; exists []; split; reflexivity].
  destruct p as [| | | | |l|]; try discriminate.
  intros H. exists l. split; [reflexivity | exact H].
Qed.

Lemma tagged_dicts lbl l :
  forallb isinstance_dict l = true ->
  forallb isinstance_dict (map (tagged lbl) l) = true.
Proof.
  induction l as [|v l IH]; simpl; intros H; [reflexivity|].
  apply andb_true_iff in H as [Hv Hl].
  destruct v; try discriminate. simpl. now apply IH.
Qed.

Lemma tag_players_shaped g l players :
  isinstance_dict g = true ->
  forallb isinstance_dict l = true ->
  tag_players g l players = Ok (players ++ map (tagged (group_label g)) l).
Proof.
  intros Hg. revert players.
  induction l as [|v l IH]; intros players H; simpl.
  - now rewrite app_nil_r.
  - apply andb_true_iff in H as [Hv Hl].
    destruct g as [| | | | | |gd]; try discriminate.
    destruct v as [| | | | | |vd]; try discriminate.
    cbn [get bind setitem]. rewrite (IH _ Hl).
    rewrite <- app_assoc. reflexivity.
Qed.

Lemma collect_players_shaped groups players :
  forallb group_ok groups = true ->
  collect_players groups players
  = Ok (players ++ flat_map group_records groups).
Proof.
  revert players.
  induction groups as [|g groups IH]; intros players H; simpl.
  - now rewrite app_nil_r.
  - apply andb_true_iff in H as [Hg Hgs].
    destruct g as [| | | | | |gd]; try discriminate.
    unfold group_ok, dict_with, absent_or in Hg.
    unfold group_records, group_players. cbn [get bind].
    destruct (lookup "player" gd) as [p|] eqn:Ep.
    + destruct p as [| | | | |l|]; cbn [bind];
        try (rewrite (IH _ Hgs); reflexivity).
      cbn in Hg.
      rewrite (tag_players_shaped (VDict gd) l players eq_refl Hg).
      cbn [bind]. rewrite (IH _ Hgs). now rewrite <- app_assoc.
    + cbn [bind]. rewrite (tag_players_shaped (VDict gd) [] players eq_refl eq_refl).
      cbn [bind map]. rewrite (IH _ Hgs). now rewrite app_nil_r.
Qed.

Lemma group_records_dicts g :
  group_ok g = true -> forallb isinstance_dict (group_records g) = true.
Proof.
  unfold group_ok, dict_with, absent_or, group_records, group_players.
  destruct g as [| | | | | |gd]; try discriminate.
  destruct (lookup "player" gd) as [p|]; [|reflexivity].
  destruct p; try reflexivity. cbn. apply tagged_dicts.
Qed.

Lemma flat_map_records_dicts groups :
  forallb group_ok groups = true ->
  forallb isinstance_dict (flat_map group_records groups) = true.
Proof.
  induction groups as [|g groups IH]; simpl; intros H; [reflexivity|].
  apply andb_true_iff in H as [Hg Hgs].
  rewrite forallb_app, (group_records_dicts g Hg). now apply IH.
Qed.

Lemma fielding_players_shaped data :
  fielding_ok data = true ->
  exists groups, fielding_players data = Ok (flat_map group_records groups) /\
                 forallb group_ok groups = true.
Proof.
  unfold fielding_ok, fielding_players, dict_with, absent_or, get.
  destruct data as [| | | | | |d]; try discriminate. cbn [bind].
  destruct (lookup "stats" d) as [stats|];
    [|intros _; exists []; split; reflexivity].
  destruct stats as [| | | | | |s]; try discriminate. cbn [bind].
  destruct (lookup "position" s) as [p|];
    [|intros _; exists []; split; reflexivity].
  destruct p as [| | | | |groups|]; try discriminate.
  cbn [groups_ok iterate bind]. intros H. exists groups.
  split; [|exact H]. now rewrite (collect_players_shaped groups [] H).
Qed.

(** C5, as the code has it: when every value found on a lookup path is a
    mapping (a key may be missing at any level), the player lists hold
    mappings and the position groups are mappings, each of the three
    extractors returns a table built from a list of records. *)
Theorem extractors_return_on_shaped_payload
  (other : value -> result DataFrame) (data : value) :
  well_shaped data = true ->
  (exists recs, batting_of other data = Ok (from_records recs)) /\
  (exists recs, pitching_of other data = Ok (from_records recs)) /\
  (exists recs, fielding_of other data = Ok (from_records recs)).
Proof.
  unfold well_shaped. intros H.
  apply andb_true_iff in H as [H Hf]. apply andb_true_iff in H as [Hb Hp].
  split; [|split].
  - destruct (player_path_shaped _ _ Hb) as [l [E Hl]].
    destruct (as_records_dicts l Hl) as [recs [Er _]].
    exists recs. unfold batting_of. rewrite E. cbn. now rewrite Er.
  - destruct (player_path_shaped _ _ Hp) as [l [E Hl]].
    destruct (as_records_dicts l Hl) as [recs [Er _]].
    exists recs. unfold pitching_of. rewrite E. cbn. now rewrite Er.
  - destruct (fielding_players_shaped _ Hf) as [groups [E Hg]].
    destruct (as_records_dicts _ (flat_map_records_dicts groups Hg))
      as [recs [Er _]].
    exists recs. unfold fielding_of. rewrite E. cbn. now rewrite Er.
Qed.

Lemma extractors_return_on_shaped_payload_witness :
  (exists recs, batting_of (fun _ => Raise ValueError) scenario_A
                = Ok (from_records recs)) /\
  (exists recs, pitching_of (fun _ => Raise ValueError) scenario_A
                = Ok (from_records recs)) /\
  (exists recs, fielding_of (fun _ => Raise ValueError) scenario_A
                = Ok (from_records recs)).
Proof.
  apply (extractors_return_on_shaped_payload (fun _ => Raise ValueError)
           scenario_A).
  reflexivity.
Defined.

(** C5 as stated fails: on a payload whose [stats] is [null], a JSON value
    the service can send, each of the three extractors raises. *)
Lemma extractors_raise_on_null_stats :
  (forall other, batting_of other null_stats = Raise AttributeError) /\
  (forall other, pitching_of other null_stats = Raise AttributeError) /\
  (forall other, fielding_of other null_stats = Raise AttributeError).
Proof.
  repeat split.
Qed.

(** ** Tables built from records *)

Lemma mem_In c cs : mem c cs = true <-> In c cs.
Proof.
  unfold mem. rewrite existsb_exists. split.
  - intros [x [Hx E]]. apply String.eqb_eq in E. now subst.
  - intros H. exists c. split; [exact H | apply String.eqb_refl].
Qed.

Lemma mem_false c cs : mem c cs = false <-> ~ In c cs.
Proof.
  rewrite <- mem_In. destruct (mem c cs); split; congruence.
Qed.

Lemma add_new_NoDup acc ks : NoDup acc -> NoDup (add_new acc ks).
Proof.
  revert acc. induction ks as [|k ks IH]; intros acc H; simpl; [exact H|].
  destruct (mem k acc) eqn:E; [now apply IH|].
  apply IH. apply NoDup_app; [exact H | repeat constructor; auto |].
  intros x Hx [<-|[]]. apply mem_false in E. contradiction.
Qed.

Lemma add_new_In acc ks c :
  In c (add_new acc ks) <-> In c acc \/ In c ks.
Proof.
  revert acc. induction ks as [|k ks IH]; intros acc; simpl; [tauto|].
  destruct (mem k acc) eqn:E; rewrite IH.
  - apply mem_In in E. split; [tauto|]. intros [H|[<-|H]]; auto.
  - rewrite in_app_iff. simpl. tauto.
Qed.

Lemma fold_add_new_NoDup recs acc :
  NoDup acc -> NoDup (fold_left (fun a d => add_new a (keys d)) recs acc).
Proof.
  revert acc. induction recs as [|d recs IH]; intros acc H; simpl; [exact H|].
  apply IH, add_new_NoDup, H.
Qed.

Lemma fold_add_new_In recs acc c :
  In c (fold_left (fun a d => add_new a (keys d)) recs acc)
  <-> In c acc \/ exists d, In d recs /\ In c (keys d).
Proof.
  revert acc. induction recs as [|d recs IH]; intros acc; simpl.
  - split; [tauto|]. intros [H|[d [[] _]]]. exact H.
  - rewrite IH, add_new_In. split.
    + intros [[H|H]|[d' [H1 H2]]]; eauto.
    + intros [H|[d' [[<-|H1] H2]]]; eauto.
Qed.

Lemma col_pos_nth c cs p :
  col_pos c cs = Some p -> nth_error cs p = Some c.
Proof.
  revert p. induction cs as [|c' cs IH]; intros p; simpl; [discriminate|].
  destruct (String.eqb c c') eqn:E.
  - intros [= <-]. apply String.eqb_eq in E. now subst.
  - destruct (col_pos c cs) as [q|]; [|discriminate].
    intros [= <-]. now apply IH.
Qed.

Lemma col_pos_In c cs : In c cs -> exists p, col_pos c cs = Some p.
Proof.
  induction cs as [|c' cs IH]; simpl; [tauto|].
  destruct (String.eqb c c') eqn:E; [eauto|].
  intros [->|H]; [rewrite String.eqb_refl in E; discriminate|].
  destruct (IH H) as [p ->]. eauto.
Qed.

Lemma col_pos_None c cs : col_pos c cs = None <-> ~ In c cs.
Proof.
  split.
  - intros H Hin. destruct (col_pos_In c cs Hin) as [p Hp]. congruence.
  - intros H. destruct (col_pos c cs) as [p|] eqn:E; [|reflexivity].
    apply col_pos_nth, nth_error_In in E. contradiction.
Qed.

Lemma number_rows_nth n cs recs i d :
  nth_error recs i = Some d ->
  nth_error (number_rows n cs recs) i
  = Some (mkRow (n + i)
                (map (fun c => match lookup c d with
                               | Some v => v
                               | None => VNaN
                               end) cs)).
Proof.
  revert n i. induction recs as [|d' recs IH]; intros n [|i]; simpl;
    try discriminate.
  - intros [= ->]. now rewrite Nat.add_0_r.
  - intros H. rewrite (IH (S n) i H). do 2 f_equal. lia.
Qed.

Lemma number_rows_labels n cs recs :
  map label (number_rows n cs recs) = seq n (length recs).
Proof.
  revert n. induction recs as [|d recs IH]; intros n; simpl;
    [reflexivity | now rewrite IH].
Qed.

Lemma number_rows_aligned n cs recs :
  Forall (fun r => length (cells r) = length cs) (number_rows n cs recs).
Proof.
  revert n. induction recs as [|d recs IH]; intros n; simpl; constructor.
  - cbn. apply length_map.
  - apply IH.
Qed.

Lemma as_records_nth l recs i d :
  as_records l = Some recs -> nth_error l i = Some (VDict d) ->
  nth_error recs i = Some d.
Proof.
  revert recs i. induction l as [|v l IH]; intros recs [|i]; simpl;
    try discriminate.
  - intros H [= ->]. destruct (as_records l); [|discriminate].
    now injection H as <-.
  - destruct v; try discriminate.
    destruct (as_records l) as [ds|]; [|discriminate].
    intros [= <-] H. simpl. now apply IH.
Qed.

Lemma Forall2_nth {A B} (R : A -> B -> Prop) l l' :
  length l = length l' ->
  (forall i a, nth_error l i = Some a ->
               exists b, nth_error l' i = Some b /\ R a b) ->
  Forall2 R l l'.
Proof.
  revert l'. induction l as [|a l IH]; intros [|b l'] Hlen H;
    try discriminate; constructor.
  - destruct (H 0 a eq_refl) as [b' [[= <-] HR]]. exact HR.
  - apply IH; [now injection Hlen|]. intros i x Hx. exact (H (S i) x Hx).
Qed.

Lemma as_records_map l recs : as_records l = Some recs -> l = map VDict recs.
Proof.
  revert recs. induction l as [|v l IH]; intros recs; cbn.
  - now intros [= <-].
  - destruct v; try discriminate.
    destruct (as_records l) as [ds|]; [|discriminate].
    intros [= <-]. cbn. now rewrite (IH ds eq_refl).
Qed.

Lemma nth_error_settle flags vs p :
  nth_error (settle flags vs) p
  = match nth_error flags p, nth_error vs p with
    | Some b, Some v => Some (stored b v)
    | _, _ => None
    end.
Proof.
  unfold settle. revert vs p.
  induction flags as [|b flags IH]; intros vs p.
  - destruct p; reflexivity.
  - destruct vs as [|v vs].
    + destruct p; cbn; [reflexivity|]. now destruct (nth_error flags p).
    + destruct p; cbn; [reflexivity | apply IH].
Qed.

Lemma settle_length flags vs :
  length flags = length vs -> length (settle flags vs) = length vs.
Proof.
  intros H. unfold settle. rewrite length_map, length_combine. lia.
Qed.

Lemma stored_not_null b v : v <> VNone -> stored b v = v.
Proof.
  destruct v; intros H; try reflexivity. contradiction.
Qed.

Lemma lookup_keys k d v : lookup k d = Some v -> In k (keys d).
Proof.
  unfold keys. induction d as [|[k' v'] d IH]; simpl; [discriminate|].
  destruct (String.eqb k k') eqn:E;
    [apply String.eqb_eq in E; auto | right; auto].
Qed.

(** The table built from a list of records. *)
Lemma records_table recs :
  let df := from_records recs in
  unique_columns df /\
  aligned df /\
  map label (rows df) = seq 0 (length recs) /\
  (forall c, In c (columns df) <-> exists d, In d recs /\ In c (keys d)) /\
  Forall2 (row_holds df) (map VDict recs) (rows df).
Proof.
  cbv zeta. unfold from_records, unique_columns, aligned. cbn [columns rows].
  set (cs := record_columns recs).
  set (flags := map (null_is_missing recs) cs).
  split; [apply fold_add_new_NoDup; constructor|].
  split.
  { apply Forall_forall. intros r Hr. apply in_map_iff in Hr as [r0 [<- Hr0]].
    cbn [cells].
    pose proof (number_rows_aligned 0 cs recs) as Hal.
    rewrite Forall_forall in Hal. specialize (Hal r0 Hr0).
    rewrite settle_length; [exact Hal|]. unfold flags.
    now rewrite length_map, Hal. }
  split; [now rewrite map_map, <- (number_rows_labels 0 cs recs)|].
  split.
  { intros c. unfold cs, record_columns. rewrite fold_add_new_In.
    cbn. tauto. }
  apply Forall2_nth; [now rewrite !length_map, number_rows_length|].
  intros i a Ha. rewrite nth_error_map in Ha.
  destruct (nth_error recs i) as [d|] eqn:Hd; [|discriminate].
  injection Ha as <-.
  rewrite nth_error_map, (number_rows_nth 0 cs recs i d Hd). cbn [option_map].
  eexists. split; [reflexivity|].
  intros k v Hget Hv. cbn [get] in Hget.
  destruct (lookup k d) as [w|] eqn:Hk; [|congruence].
  injection Hget as ->.
  assert (Hin : In k cs).
  { unfold cs, record_columns. apply fold_add_new_In. right. exists d.
    split; [now apply (nth_error_In _ i) | now apply (lookup_keys k d v)]. }
  unfold field. cbn [columns]. destruct (col_pos_In _ _ Hin) as [p Hp].
  rewrite Hp. apply col_pos_nth in Hp.
  unfold cell. apply nth_error_nth. cbn [cells label].
  rewrite nth_error_settle.
  unfold flags. rewrite !nth_error_map, Hp. cbn [option_map].
  rewrite Hk. now rewrite stored_not_null.
Qed.





(** ** The store *)

Lemma write_length st r df : length (write st r df) = length st.
Proof.
  revert r. induction st as [|d st IH]; intros [|r]; simpl; auto.
Qed.

Lemma read_write_same st r df : r < length st -> read (write st r df) r = df.
Proof.
  unfold read. revert r.
  induction st as [|d st IH]; intros [|r] H; simpl in *; try lia; auto.
  apply IH. lia.
Qed.

Lemma read_write_other st r r' df :
  r' <> r -> read (write st r df) r' = read st r'.
Proof.
  unfold read. revert r r'.
  induction st as [|d st IH]; intros [|r] [|r'] H; simpl; auto;
    try contradiction.
Qed.

Lemma read_alloc_old st df r : r < length st -> read (st ++ [df]) r = read st r.
Proof.
  intros H. unfold read. now rewrite app_nth1.
Qed.

Lemma read_alloc_new st df : read (st ++ [df]) (length st) = df.
Proof.
  unfold read. rewrite app_nth2, Nat.sub_diag; [reflexivity | lia].
Qed.

(** ** Unwrapping in place *)

Lemma lookup_size k d v : lookup k d = Some v -> size v < size (VDict d).
Proof.
  cbn [size]. induction d as [|[k' v'] d IH]; simpl; [discriminate|].
  destruct (String.eqb k k').
  - intros [= ->]. lia.
  - intros H. specialize (IH H). lia.
Qed.

Lemma unwrap_fixed v : unwrap v = v <-> isinstance_dict v = false.
Proof.
  split.
  - destruct v as [| | | | | |d]; try reflexivity.
    cbn [unwrap]. destruct (lookup "$t" d) as [w|] eqn:E; [|discriminate].
    intros ->. apply lookup_size in E. lia.
  - destruct v; try reflexivity. discriminate.
Qed.

Section ApplyColumn.

Variable c : string.
Variable f : value -> value.

Lemma apply_cells_absent cs vs :
  length vs = length cs -> count c cs = 0 -> apply_cells c f cs vs = vs.
Proof.
  unfold apply_cells, count. revert vs.
  induction cs as [|c' cs IH]; intros [|v vs] Hlen Hc; simpl in *;
    try discriminate; auto.
  destruct (String.eqb c c'); simpl in *; [discriminate|].
  f_equal. apply IH; [lia | exact Hc].
Qed.

Lemma apply_cells_fixed cs vs p :
  length vs = length cs -> count c cs = 1 -> col_pos c cs = Some p ->
  (apply_cells c f cs vs = vs <-> f (nth p vs VNaN) = nth p vs VNaN).
Proof.
  unfold apply_cells, count. revert vs p.
  induction cs as [|c' cs IH]; intros [|v vs] p Hlen Hc Hp; simpl in *;
    try discriminate.
  destruct (String.eqb c c') eqn:E; simpl in *.
  - injection Hp as <-. injection Hc as Hc.
    pose proof (apply_cells_absent cs vs) as Habs.
    unfold apply_cells, count in Habs. rewrite Habs by lia.
    split; [now intros [= ->] | now intros ->].
  - destruct (col_pos c cs) as [p'|] eqn:Ep; [|discriminate].
    injection Hp as <-.
    specialize (IH vs p' ltac:(lia) Hc eq_refl).
    split.
    + intros [= H]. now apply IH.
    + intros H. f_equal. now apply IH.
Qed.

End ApplyColumn.

Lemma map_fixed {A} (g : A -> A) (l : list A) :
  map g l = l <-> Forall (fun x => g x = x) l.
Proof.
  induction l as [|x l IH]; simpl.
  - split; [constructor | reflexivity].
  - split.
    + intros [= Hx Hl]. constructor; [exact Hx | now apply IH].
    + intros H. inversion H; subst. f_equal; [assumption | now apply IH].
Qed.

Lemma apply_unwrap_fixed (df : DataFrame) (p : nat) :
  aligned df ->
  count "teamname" (columns df) = 1 ->
  col_pos "teamname" (columns df) = Some p ->
  (apply_column "teamname" unwrap df = df <-> ~ has_wrapper p df).
Proof.
  intros Hal Hc Hp. destruct df as [cs rs].
  unfold apply_column, has_wrapper, aligned in *. cbn [columns rows] in *.
  rewrite <- Forall_Exists_neg.
  split.
  - intros [= H]. apply map_fixed in H.
    rewrite Forall_forall in *. intros r Hr.
    specialize (H r Hr). specialize (Hal r Hr). destruct r as [n vs].
    cbn [label cells] in *. injection H as H.
    apply (apply_cells_fixed "teamname" unwrap cs vs p Hal Hc Hp) in H.
    apply unwrap_fixed in H. unfold cell. cbn [cells]. now rewrite H.
  - intros H. f_equal. apply map_fixed.
    rewrite Forall_forall in *. intros r Hr.
    specialize (H r Hr). specialize (Hal r Hr). destruct r as [n vs].
    cbn [label cells] in *. f_equal.
    apply (apply_cells_fixed "teamname" unwrap cs vs p Hal Hc Hp).
    apply unwrap_fixed. unfold cell in H. cbn [cells] in H.
    now destruct (isinstance_dict (nth p vs VNaN)).
Qed.

Lemma count_mem c cs : count c cs = 1 -> mem c cs = true.
Proof.
  unfold count, mem. induction cs as [|c' cs IH]; simpl; [discriminate|].
  destruct (String.eqb c c'); simpl; auto.
Qed.

(** C10, as the code has it: given a table with one [teamname] column,
    each normaliser first overwrites that column of the caller's table
    with the unwrapped values, builds the table it returns from the
    overwritten one as a new object, and leaves every other table alone.
    The caller's table ends up different from what it was exactly when
    some [teamname] cell was a mapping. *)
Theorem clean_overwrites_teamname (c : category) (st : store) (df : ref)
  (p : nat) :
  df < length st ->
  aligned (read st df) ->
  count "teamname" (columns (read st df)) = 1 ->
  col_pos "teamname" (columns (read st df)) = Some p ->
  let input := read st df in
  let res := fst (normaliser c df st) in
  let st' := snd (normaliser c df st) in
  read st' df = apply_column "teamname" unwrap input /\
  match res with
  | Ok out => out <> df /\
              clean_rest (tables_of c) (read st' df) = Ok (read st' out)
  | Raise e => clean_rest (tables_of c) (read st' df) = Raise e
  end /\
  (forall r, r < length st -> r <> df -> read st' r = read st r) /\
  (read st' df <> input <-> has_wrapper p input).
Proof.
  intros Hlt Hal Hc Hp input res st'.
  assert (Hn : normaliser c = clean_df (tables_of c)) by now destruct c.
  subst res st'. rewrite Hn. clear Hn. unfold clean_df.
  unfold unwrap_teamname. rewrite (count_mem _ _ Hc). fold input.
  set (st1 := write st df (apply_column "teamname" unwrap input)).
  assert (H1 : read st1 df = apply_column "teamname" unwrap input)
    by (apply read_write_same; exact Hlt).
  assert (Hlen : length st1 = length st) by apply write_length.
  assert (Hwrap :
    apply_column "teamname" unwrap input <> input <-> has_wrapper p input).
  { pose proof (apply_unwrap_fixed input p Hal Hc Hp) as Hfix.
    split.
    - intros Hne.
      assert (Hdec : forall r, {isinstance_dict (cell p r) = true}
                               + {isinstance_dict (cell p r) <> true}).
      { intros r. destruct (isinstance_dict (cell p r));
          [left; reflexivity | right; discriminate]. }
      destruct (Exists_dec _ (rows input) Hdec) as [Hex|Hno];
        [exact Hex | exfalso; apply Hne, Hfix, Hno].
    - intros Hex Heq. apply Hfix in Heq. contradiction. }
  destruct (clean_rest (tables_of c) (read st1 df)) as [out|e] eqn:E;
    cbn [alloc fst snd].
  - rewrite !read_alloc_old by lia. rewrite <- Hlen, read_alloc_new, Hlen.
    rewrite H1. repeat split.
    + lia.
    + now rewrite <- H1.
    + intros r Hr Hne. rewrite read_alloc_old by lia.
      unfold st1. now apply read_write_other.
    + apply Hwrap.
    + apply Hwrap.
  - rewrite H1. repeat split.
    + now rewrite <- H1.
    + intros r Hr Hne. unfold st1. now apply read_write_other.
    + apply Hwrap.
    + apply Hwrap.
Qed.

Lemma clean_overwrites_teamname_witness :
  read (snd (clean_batting_df 0 [wrapped_team])) 0
  = mkDF ["playername"; "teamname"] [mkRow 0 [VStr "J Smith"; VStr "Hawks"]]
  /\ read (snd (clean_batting_df 0 [wrapped_team])) 0 <> wrapped_team.
Proof.
  destruct (clean_overwrites_teamname Batting [wrapped_team] 0 1)
    as [H1 [_ [_ H4]]].
  - simpl. lia.
  - repeat constructor.
  - reflexivity.
  - reflexivity.
  - split.
    + exact H1.
    + apply H4. apply Exists_cons_hd. reflexivity.
Defined.

(** C10 as stated fails: a table whose team names are plain strings has a
    [teamname] column, and after each of the three normalisers the
    caller's table is what it was. *)
Lemma clean_leaves_plain_team_unchanged :
  mem "teamname" (columns plain_team) = true /\
  read (snd (clean_batting_df 0 [plain_team])) 0 = plain_team /\
  read (snd (clean_pitching_df 0 [plain_team])) 0 = plain_team /\
  read (snd (clean_fielding_df 0 [plain_team])) 0 = plain_team.
Proof.
  repeat split.
Qed.

(** ** Sorting *)

Section Sorting.

Variable p : nat.

Lemma key_geb_true a b : key_geb p a b = true -> key_ge p a b.
Proof.
  unfold key_geb, key_ge.
  destruct (sort_key p a), (sort_key p b); auto.
  apply Qle_bool_iff.
Qed.

Lemma key_geb_false a b : key_geb p a b = false -> key_ge p b a.
Proof.
  unfold key_geb, key_ge.
  destruct (sort_key p a) as [x|], (sort_key p b) as [y|]; auto.
  intros H. apply Qlt_le_weak, Qnot_le_lt. intros Hle.
  apply Qle_bool_iff in Hle. congruence.
Qed.

Lemma key_ge_trans a b c :
  has_key p b = true -> key_ge p a b -> key_ge p b c -> key_ge p a c.
Proof.
  unfold has_key, key_ge.
  destruct (sort_key p a), (sort_key p b), (sort_key p c); auto;
    try discriminate.
  intros _ H1 H2. eapply Qle_trans; eassumption.
Qed.

Lemma insert_desc_perm r l : Permutation (r :: l) (insert_desc p r l).
Proof.
  induction l as [|x l IH]; simpl; [reflexivity|].
  destruct (key_geb p r x); [reflexivity|].
  rewrite perm_swap. now apply perm_skip.
Qed.

Lemma insert_desc_sorted r l :
  Forall (fun x => has_key p x = true) l ->
  StronglySorted (key_ge p) l ->
  StronglySorted (key_ge p) (insert_desc p r l).
Proof.
  intros Hk Hs. induction l as [|x l IH]; simpl.
  - repeat constructor.
  - inversion Hk as [|? ? Hx Hl]; subst.
    inversion Hs as [|? ? Hsl Hxl]; subst.
    destruct (key_geb p r x) eqn:E.
    + constructor; [exact Hs|].
      apply key_geb_true in E. constructor; [exact E|].
      rewrite Forall_forall in *. intros y Hy.
      eapply key_ge_trans; [exact Hx | exact E | now apply Hxl].
    + constructor; [now apply IH|].
      apply key_geb_false in E.
      eapply Permutation_Forall; [apply insert_desc_perm|].
      constructor; assumption.
Qed.

Lemma insertion_perm l : Permutation l (fold_right (insert_desc p) [] l).
Proof.
  induction l as [|x l IH]; simpl; [reflexivity|].
  rewrite <- insert_desc_perm. now apply perm_skip.
Qed.

Lemma insertion_sorted l :
  Forall (fun x => has_key p x = true) l ->
  StronglySorted (key_ge p) (fold_right (insert_desc p) [] l).
Proof.
  induction l as [|x l IH]; simpl; intros H; [constructor|].
  inversion H; subst. apply insert_desc_sorted; [|now apply IH].
  eapply Permutation_Forall; [apply insertion_perm | assumption].
Qed.

Lemma filter_all {A} (f : A -> bool) (l : list A) :
  Forall (fun x => f x = true) l -> filter f l = l.
Proof.
  induction 1 as [|x l Hx _ IH]; simpl; [reflexivity|].
  now rewrite Hx, IH.
Qed.

Lemma filter_none {A} (f : A -> bool) (l : list A) :
  Forall (fun x => f x = false) l -> filter f l = [].
Proof.
  induction 1 as [|x l Hx _ IH]; simpl; [reflexivity|].
  now rewrite Hx, IH.
Qed.

Lemma filter_holds {A} (f : A -> bool) (l : list A) :
  Forall (fun x => f x = true) (filter f l).
Proof.
  apply Forall_forall. intros x Hx. now apply filter_In in Hx.
Qed.

Lemma filter_split {A} (f : A -> bool) (l : list A) :
  Permutation l (filter f l ++ filter (fun x => negb (f x)) l).
Proof.
  induction l as [|x l IH]; simpl; [reflexivity|].
  destruct (f x); simpl.
  - now apply perm_skip.
  - now apply Permutation_cons_app.
Qed.

(** The stable order is one of the results the sort may give. *)
Lemma stable_sort_admissible input :
  sorted_desc p input (stable_sort_desc p input).
Proof.
  exists (fold_right (insert_desc p) [] (filter (has_key p) input)).
  split; [reflexivity|]. split.
  - apply insertion_perm.
  - apply insertion_sorted, filter_holds.
Qed.

Lemma sorted_desc_front input output front :
  output = front ++ filter (fun r => negb (has_key p r)) input ->
  Permutation (filter (has_key p) input) front ->
  Forall (fun r => has_key p r = true) front /\
  filter (has_key p) output = front /\
  filter (fun r => negb (has_key p r)) output
  = filter (fun r => negb (has_key p r)) input.
Proof.
  intros -> Hperm.
  assert (Hfront : Forall (fun r => has_key p r = true) front)
    by (eapply Permutation_Forall; [exact Hperm | apply filter_holds]).
  pose proof (filter_holds (fun r => negb (has_key p r)) input) as Hmiss.
  split; [exact Hfront|]. rewrite !filter_app. split.
  - rewrite (filter_all _ _ Hfront), filter_none, app_nil_r; [reflexivity|].
    eapply Forall_impl; [|exact Hmiss]. cbv beta. intros r Hr.
    now destruct (has_key p r).
  - rewrite (filter_all _ _ Hmiss), filter_none; [reflexivity|].
    eapply Forall_impl; [|exact Hfront]. cbv beta. intros r Hr.
    now rewrite Hr.
Qed.

Lemma sorted_desc_perm input output :
  sorted_desc p input output -> Permutation input output.
Proof.
  intros [front [-> [Hperm _]]].
  rewrite (filter_split (has_key p) input) at 1.
  now apply Permutation_app_tail.
Qed.

Lemma StronglySorted_app {A} (R : A -> A -> Prop) (l1 l2 : list A) :
  StronglySorted R l1 -> StronglySorted R l2 ->
  (forall a b, In a l1 -> In b l2 -> R a b) ->
  StronglySorted R (l1 ++ l2).
Proof.
  intros H1 H2 H. induction H1 as [|a l1 Hs IH Ha]; simpl; [exact H2|].
  constructor.
  - apply IH. intros x y Hx Hy. apply H; [now right | exact Hy].
  - apply Forall_app. split; [exact Ha|].
    apply Forall_forall. intros y Hy. apply H; [now left | exact Hy].
Qed.

Lemma all_missing_sorted l :
  Forall (fun r => negb (has_key p r) = true) l ->
  StronglySorted (desc_missing_last p) l.
Proof.
  induction 1 as [|x l Hx Hl IH]; constructor; [exact IH|].
  eapply Forall_impl; [|exact Hl]. cbv beta. intros y Hy.
  unfold desc_missing_last, has_key in *.
  destruct (sort_key p x), (sort_key p y); auto; discriminate.
Qed.

Lemma keyed_sorted l :
  Forall (fun r => has_key p r = true) l ->
  StronglySorted (key_ge p) l -> StronglySorted (desc_missing_last p) l.
Proof.
  intros Hk Hs. induction Hs as [|x l Hs IH Hx]; constructor.
  - apply IH. now inversion Hk.
  - inversion Hk as [|? ? Hkx Hkl]; subst.
    rewrite Forall_forall in *. intros y Hy.
    specialize (Hx y Hy). specialize (Hkl y Hy).
    unfold desc_missing_last, key_ge, has_key in *.
    destruct (sort_key p x), (sort_key p y); auto; discriminate.
Qed.

Lemma sorted_desc_order input output :
  sorted_desc p input output -> StronglySorted (desc_missing_last p) output.
Proof.
  intros [front [E [Hperm Hs]]].
  destruct (sorted_desc_front input output front E Hperm) as [Hk _].
  subst output. apply StronglySorted_app.
  - now apply keyed_sorted.
  - apply all_missing_sorted, filter_holds.
  - intros a b Ha Hb. rewrite Forall_forall in Hk. specialize (Hk a Ha).
    apply filter_In in Hb as [_ Hb].
    unfold desc_missing_last, has_key in *.
    destruct (sort_key p a), (sort_key p b); auto; discriminate.
Qed.

(** A sorted table is a result of sorting it again. *)
Lemma sorted_desc_again input output :
  sorted_desc p input output -> sorted_desc p output output.
Proof.
  intros [front [E [Hperm Hs]]].
  destruct (sorted_desc_front input output front E Hperm) as [_ [Hf Hm]].
  exists front. rewrite Hf, Hm. split; [exact E|]. split; [reflexivity | exact Hs].
Qed.

End Sorting.

(** ** The equality filters *)

Lemma filter_true {A} (l : list A) : filter (fun _ : A => true) l = l.
Proof.
  induction l as [|x l IH]; simpl; [reflexivity | now rewrite IH].
Qed.

Lemma filter_stage (active : bool) c s cs rs :
  (if active then filter_eq c s (mkDF cs rs) else Ok (mkDF cs rs))
  = if active && absent c cs then Raise (KeyError c)
    else Ok (mkDF cs (filter (test active c s cs) rs)).
Proof.
  unfold filter_eq, absent, test. cbn [columns rows].
  destruct active; cbn [andb].
  - destruct (col_pos c cs); reflexivity.
  - now rewrite filter_true.
Qed.

(** The filters of a block, all at once: the exception of the first
    missing column, or the rows that pass. *)
Lemma filter_rows_kept with_pos sel cs rs :
  filter_rows with_pos sel (mkDF cs rs)
  = match missing_column with_pos sel cs with
    | Some k => Raise (KeyError k)
    | None => Ok (mkDF cs (kept with_pos sel cs rs))
    end.
Proof.
  unfold filter_rows, missing_column, kept.
  change (negb (String.eqb (team sel) "All")) with (team_active sel).
  change (negb (String.eqb (player sel) "All")) with (player_active sel).
  change (with_pos && negb (String.eqb (position sel) "All"))
    with (position_active with_pos sel).
  rewrite filter_stage.
  destruct (team_active sel && absent "TEAM" cs); [reflexivity|].
  cbn [bind]. rewrite filter_stage.
  destruct (player_active sel && absent "PLAYER" cs); [reflexivity|].
  cbn [bind]. rewrite filter_stage.
  destruct (position_active with_pos sel && absent "P" cs); reflexivity.
Qed.

Lemma kept_passes with_pos sel cs rs :
  Forall (fun r =>
            test (team_active sel) "TEAM" (team sel) cs r = true /\
            test (player_active sel) "PLAYER" (player sel) cs r = true /\
            test (position_active with_pos sel) "P" (position sel) cs r = true)
         (kept with_pos sel cs rs).
Proof.
  apply Forall_forall. intros r Hr. unfold kept in Hr.
  apply filter_In in Hr as [Hr H3]. apply filter_In in Hr as [Hr H2].
  apply filter_In in Hr as [_ H1]. auto.
Qed.

(** Rows that passed pass again, in whatever order they come. *)
Lemma kept_again with_pos sel cs rs rs' :
  Permutation (kept with_pos sel cs rs) rs' ->
  kept with_pos sel cs rs' = rs'.
Proof.
  intros Hperm.
  pose proof (Permutation_Forall Hperm (kept_passes with_pos sel cs rs)) as H.
  unfold kept.
  rewrite (filter_all (test (team_active sel) "TEAM" (team sel) cs) rs')
    by (eapply Forall_impl; [|exact H]; cbv beta; tauto).
  rewrite (filter_all (test (player_active sel) "PLAYER" (player sel) cs) rs')
    by (eapply Forall_impl; [|exact H]; cbv beta; tauto).
  apply filter_all.
  eapply Forall_impl; [|exact H]; cbv beta; tauto.
Qed.

Lemma filter_rows_again with_pos sel data d rs' :
  filter_rows with_pos sel data = Ok d ->
  Permutation (rows d) rs' ->
  columns d = columns data /\
  filter_rows with_pos sel (mkDF (columns d) rs') = Ok (mkDF (columns d) rs').
Proof.
  destruct data as [cs rs]. rewrite filter_rows_kept.
  destruct (missing_column with_pos sel cs) eqn:E; [discriminate|].
  intros [= <-]. cbn [rows columns]. intros Hperm. split; [reflexivity|].
  rewrite filter_rows_kept, E. now rewrite (kept_again _ _ _ _ _ Hperm).
Qed.

(** ** Sorting without ties *)

Lemma sorted_perm_unique p l1 l2 :
  StronglySorted (key_ge p) l1 -> StronglySorted (key_ge p) l2 ->
  Permutation l1 l2 ->
  Forall (fun r => has_key p r = true) l1 ->
  tie_free p l1 ->
  l1 = l2.
Proof.
  intros H1. revert l2.
  induction H1 as [|a l1 Hs1 IH Ha]; intros l2 H2 Hperm Hk Htf.
  - now apply Permutation_nil in Hperm.
  - destruct l2 as [|b l2];
      [apply Permutation_sym, Permutation_nil in Hperm; discriminate|].
    inversion H2 as [|? ? Hs2 Hb]; subst.
    inversion Hk as [|? ? Hka Hkl]; subst.
    assert (Hab : a = b).
    { assert (Hina : In a (b :: l2))
        by (eapply Permutation_in; [exact Hperm | now left]).
      assert (Hinb : In b (a :: l1))
        by (eapply Permutation_in;
            [apply Permutation_sym; exact Hperm | now left]).
      destruct Hina as [->|Hina]; [reflexivity|].
      destruct Hinb as [->|Hinb]; [reflexivity|].
      rewrite Forall_forall in Ha, Hb, Hkl.
      specialize (Ha b Hinb). specialize (Hb a Hina).
      specialize (Hkl b Hinb).
      unfold key_ge, has_key in *.
      destruct (sort_key p a) as [x|] eqn:Ea; [|discriminate].
      destruct (sort_key p b) as [y|] eqn:Eb; [|discriminate].
      apply (Htf a b x y); [now left | now right | assumption | assumption |].
      now apply Qle_antisym. }
    subst b. f_equal. apply IH.
    + exact Hs2.
    + eapply Permutation_cons_inv; exact Hperm.
    + exact Hkl.
    + intros u v x y Hu Hv. apply Htf; now right.
Qed.

Lemma tie_free_incl p l l' :
  (forall r, In r l' -> In r l) -> tie_free p l -> tie_free p l'.
Proof.
  intros Hincl Htf a b x y Ha Hb. apply Htf; auto.
Qed.

(** Without ties the sort has one result. *)
Lemma sorted_desc_unique p input out1 out2 :
  tie_free p input ->
  sorted_desc p input out1 -> sorted_desc p input out2 -> out1 = out2.
Proof.
  intros Htf [f1 [-> [Hp1 Hs1]]] [f2 [-> [Hp2 Hs2]]]. f_equal.
  apply (sorted_perm_unique p); try assumption.
  - rewrite <- Hp1. exact Hp2.
  - eapply Permutation_Forall; [exact Hp1 | apply filter_holds].
  - eapply tie_free_incl; [|exact Htf].
    intros r Hr. apply Permutation_sym in Hp1.
    apply (Permutation_in _ Hp1) in Hr. now apply filter_In in Hr.
Qed.

(** ** Stability of the insertion order *)

Lemma key_is_has_key p q r : key_is p q r = true -> has_key p r = true.
Proof.
  unfold key_is, has_key. now destruct (sort_key p r).
Qed.

Lemma insert_desc_ties p q r l :
  filter (key_is p q) (insert_desc p r l) = filter (key_is p q) (r :: l).
Proof.
  induction l as [|x l IH]; [reflexivity|].
  cbn [insert_desc]. destruct (key_geb p r x) eqn:E; [reflexivity|].
  cbn [filter] in *. rewrite IH.
  destruct (key_is p q x) eqn:Ex, (key_is p q r) eqn:Er; try reflexivity.
  exfalso. unfold key_is, key_geb in *.
  destruct (sort_key p r) as [kr|]; [|discriminate].
  destruct (sort_key p x) as [kx|]; [|discriminate].
  apply Qeq_bool_iff in Ex, Er.
  assert (Hle : (kx <= kr)%Q) by (rewrite Ex, Er; apply Qle_refl).
  apply Qle_bool_iff in Hle. congruence.
Qed.

Lemma insertion_ties p q l :
  filter (key_is p q) (fold_right (insert_desc p) [] l) = filter (key_is p q) l.
Proof.
  induction l as [|x l IH]; [reflexivity|].
  cbn [fold_right]. rewrite insert_desc_ties. cbn [filter]. now rewrite IH.
Qed.

Lemma ties_split p q l :
  filter (key_is p q) (filter (has_key p) l)
  ++ filter (key_is p q) (filter (fun r => negb (has_key p r)) l)
  = filter (key_is p q) l.
Proof.
  induction l as [|x l IH]; [reflexivity|].
  cbn [filter].
  destruct (has_key p x) eqn:Eh; cbn [negb filter];
    destruct (key_is p q x) eqn:Ek; cbn [app]; rewrite ?IH; try reflexivity.
  apply key_is_has_key in Ek. congruence.
Qed.

(** The insertion order keeps equal values in their order. *)
Lemma stable_sort_ties p input :
  ties_in_order p input (stable_sort_desc p input).
Proof.
  intros q. unfold stable_sort_desc.
  rewrite filter_app, insertion_ties. apply ties_split.
Qed.

(** ** The filter blocks *)

Lemma filtered_block c : filtered c = filter_block (with_position c).
Proof.
  now destruct c.
Qed.

Lemma sort_active sel :
  sort sel <> "None" -> negb (String.eqb (sort sel) "None") = true.
Proof.
  intros H. apply String.eqb_neq in H. now rewrite H.
Qed.

(** What a block with a sort column can leave. *)
Lemma filter_block_sorted with_pos data sel d p r :
  filter_rows with_pos sel data = Ok d ->
  sort sel <> "None" ->
  col_pos (sort sel) (columns d) = Some p ->
  (filter_block with_pos data sel r <->
   exists out, r = Ok (mkDF (columns d) out) /\ sorted_desc p (rows d) out).
Proof.
  intros Hd Hs Hp. unfold filter_block, sort_rows, sort_values_desc.
  rewrite Hd, (sort_active sel Hs), Hp. reflexivity.
Qed.

Lemma filter_rows_columns with_pos sel data d :
  filter_rows with_pos sel data = Ok d -> columns d = columns data.
Proof.
  intros H. now destruct (filter_rows_again _ _ _ _ (rows d) H (Permutation_refl _)).
Qed.

(** The stable order is among the results of a block. *)
Lemma stable_outcome with_pos data sel d p :
  filter_rows with_pos sel data = Ok d ->
  sort sel <> "None" ->
  col_pos (sort sel) (columns data) = Some p ->
  filter_block with_pos data sel
    (Ok (mkDF (columns data) (stable_sort_desc p (rows d)))).
Proof.
  intros Hd Hs Hp.
  pose proof (filter_rows_columns _ _ _ _ Hd) as Hc. rewrite <- Hc in *.
  apply (filter_block_sorted with_pos data sel d p _ Hd Hs Hp).
  eexists. split; [reflexivity | apply stable_sort_admissible].
Qed.

(** C3, as the code has it: with a sort column selected, a block leaves
    the rows that passed the filters rearranged so that the values of the
    column descend and the rows without a value come last, in the order
    they had.  The order of rows with equal values is not fixed: their
    pre-sort order is one possible result, and the only one when no two
    rows have equal values. *)
Theorem sorted_view_is_descending (c : category) (data d : DataFrame)
  (sel : selection) (p : nat) :
  unique_columns data ->
  numeric_column (sort sel) data ->
  sort sel <> "None" ->
  col_pos (sort sel) (columns data) = Some p ->
  filter_rows (with_position c) sel data = Ok d ->
  (filtered c data sel (Ok (mkDF (columns data) (stable_sort_desc p (rows d))))
   /\ ties_in_order p (rows d) (stable_sort_desc p (rows d))) /\
  forall r, filtered c data sel r ->
    exists out,
      r = Ok (mkDF (columns data) out) /\
      Permutation (rows d) out /\
      StronglySorted (desc_missing_last p) out /\
      filter (fun x => negb (has_key p x)) out
      = filter (fun x => negb (has_key p x)) (rows d) /\
      (tie_free p (rows d) -> out = stable_sort_desc p (rows d)).
Proof.
  intros _ _ Hs Hp Hd. rewrite filtered_block. split.
  - split; [now apply stable_outcome | apply stable_sort_ties].
  - intros r Hr.
    pose proof (filter_rows_columns _ _ _ _ Hd) as Hc. rewrite <- Hc in *.
    apply (filter_block_sorted _ data sel d p r Hd Hs Hp) in Hr
      as [out [-> Hsd]].
    exists out. split; [reflexivity|].
    split; [now apply (sorted_desc_perm p)|].
    split; [now apply (sorted_desc_order p (rows d))|].
    split.
    + destruct Hsd as [front [E [Hperm _]]].
      now destruct (sorted_desc_front p _ _ _ E Hperm) as [_ [_ H]].
    + intros Htf. apply (sorted_desc_unique p (rows d)); try assumption.
      apply stable_sort_admissible.
Qed.

Lemma sorted_view_is_descending_witness :
  filtered Batting three_batters hawks_by_HR (Ok hawks_sorted).
Proof.
  apply (sorted_view_is_descending Batting three_batters
           (mkDF ["PLAYER"; "TEAM"; "HR"]
                 [ mkRow 0 [VStr "Ann"; VStr "Hawks"; VNum 2];
                   mkRow 2 [VStr "Cy"; VStr "Hawks"; VNaN];
                   mkRow 3 [VStr "Di"; VStr "Hawks"; VNum 5] ])
           hawks_by_HR 2).
  - repeat constructor; simpl; intuition discriminate.
  - simpl. intros r [<-|[<-|[<-|[<-|[]]]]]; reflexivity.
  - discriminate.
  - reflexivity.
  - reflexivity.
Defined.

(** ** The eighteen tied batters *)

Lemma constant_keys_sorted p q l :
  Forall (fun r => sort_key p r = Some q) l -> StronglySorted (key_ge p) l.
Proof.
  induction 1 as [|x l Hx Hl IH]; constructor; [exact IH|].
  eapply Forall_impl; [|exact Hl]. cbv beta. intros y Hy.
  unfold key_ge. rewrite Hx, Hy. apply Qle_refl.
Qed.

Lemma tied_rows_parts :
  tied_rows
  = firstn 2 tied_rows ++ firstn 15 (skipn 2 tied_rows) ++ skipn 17 tied_rows.
Proof.
  reflexivity.
Qed.

Lemma tied_moved_perm : Permutation tied_rows moved_rows.
Proof.
  rewrite tied_rows_parts at 1. unfold moved_rows.
  apply Permutation_app_head, Permutation_app_tail, Permutation_rev.
Qed.

(** Sorting the tied batters by home runs may reverse those labelled 2
    to 16, and sorting that result may restore them. *)
Lemma tied_rows_may_move :
  batting_filtered tied_table by_HR (Ok moved_table) /\
  batting_filtered moved_table by_HR (Ok tied_table).
Proof.
  split.
  - apply (filter_block_sorted true tied_table by_HR tied_table 2 _
             eq_refl ltac:(discriminate) eq_refl).
    exists moved_rows. split; [reflexivity|].
    exists moved_rows. split; [reflexivity|]. split.
    + exact tied_moved_perm.
    + apply (constant_keys_sorted 2 1%Q). vm_compute. repeat constructor.
  - apply (filter_block_sorted true moved_table by_HR moved_table 2 _
             eq_refl ltac:(discriminate) eq_refl).
    exists tied_rows. split; [reflexivity|].
    exists tied_rows. split; [reflexivity|]. split.
    + apply Permutation_sym. exact tied_moved_perm.
    + apply (constant_keys_sorted 2 1%Q). vm_compute. repeat constructor.
Qed.

(** C3 as stated fails: sorting eighteen batters with one home run each by
    home runs may leave them in another order than they had. *)
Lemma sort_may_reorder_ties :
  batting_filtered tied_table by_HR (Ok moved_table) /\
  filter_rows true by_HR tied_table = Ok tied_table /\
  ~ ties_in_order 2 (rows tied_table) (rows moved_table).
Proof.
  split; [exact (proj1 tied_rows_may_move)|]. split; [reflexivity|].
  intros H. specialize (H 1%Q). vm_compute in H. discriminate.
Qed.

(** ** Filtering a filtered view again *)

(** C7, as the code has it: a block applied to its own result with the
    same selection may leave that result as it is, and always leaves the
    same rows, in descending order when a sort column is selected.  The
    result is identical when the sort is "None" or when no two rows have
    equal values in the sort column; rows with equal values may come out
    in another order. *)
Theorem refiltering_keeps_rows (c : category) (data out1 : DataFrame)
  (sel : selection) :
  unique_columns data ->
  (sort sel = "None" \/ numeric_column (sort sel) data) ->
  filtered c data sel (Ok out1) ->
  filtered c out1 sel (Ok out1) /\
  forall r, filtered c out1 sel r ->
    exists out2,
      r = Ok out2 /\
      columns out2 = columns out1 /\
      Permutation (rows out1) (rows out2) /\
      (sort sel = "None" -> out2 = out1) /\
      (sort sel <> "None" ->
       forall p, col_pos (sort sel) (columns out1) = Some p ->
         StronglySorted (desc_missing_last p) (rows out2) /\
         (tie_free p (rows out1) -> out2 = out1)).
Proof.
  intros _ _. rewrite filtered_block. unfold filter_block at 1.
  destruct (filter_rows (with_position c) sel data) as [d|e] eqn:Hd;
    [|discriminate].
  unfold sort_rows. destruct (negb (String.eqb (sort sel) "None")) eqn:Es.
  - assert (Hs : sort sel <> "None").
    { intros H. rewrite H in Es. discriminate. }
    unfold sort_values_desc.
    destruct (col_pos (sort sel) (columns d)) as [p|] eqn:Hp; [|discriminate].
    intros [out [[= ->] Hsd]].
    destruct (filter_rows_again _ _ _ _ out Hd (sorted_desc_perm p _ _ Hsd))
      as [_ Hagain].
    split.
    + apply (filter_block_sorted _ _ sel _ p _ Hagain Hs Hp).
      exists out. split; [reflexivity|].
      now apply (sorted_desc_again p (rows d)).
    + intros r Hr.
      apply (filter_block_sorted _ _ sel _ p _ Hagain Hs Hp) in Hr
        as [out2 [-> Hsd2]].
      cbn [columns rows] in *.
      exists (mkDF (columns d) out2). cbn [columns rows].
      split; [reflexivity|]. split; [reflexivity|].
      split; [now apply (sorted_desc_perm p)|].
      split; [intros H; contradiction|].
      intros _ p' Hp'. rewrite Hp in Hp'. injection Hp' as <-.
      split; [now apply (sorted_desc_order p out)|].
      intros Htf. f_equal. symmetry.
      apply (sorted_desc_unique p out); try assumption.
      now apply (sorted_desc_again p (rows d)).
  - assert (Hs : sort sel = "None").
    { apply negb_false_iff in Es. now apply String.eqb_eq. }
    intros [= ->].
    destruct (filter_rows_again _ _ _ _ (rows d) Hd (Permutation_refl _))
      as [_ Hagain].
    assert (Hshape : mkDF (columns d) (rows d) = d) by now destruct d.
    rewrite Hshape in Hagain.
    unfold filter_block, sort_rows. rewrite Hagain, Es.
    split; [reflexivity|].
    intros r ->. exists d. repeat split; auto; contradiction.
Qed.

Lemma hawks_sorted_once :
  filtered Batting three_batters hawks_by_HR (Ok hawks_sorted).
Proof.
  rewrite filtered_block.
  exact (stable_outcome true three_batters hawks_by_HR
           (mkDF ["PLAYER"; "TEAM"; "HR"]
                 [ mkRow 0 [VStr "Ann"; VStr "Hawks"; VNum 2];
                   mkRow 2 [VStr "Cy"; VStr "Hawks"; VNaN];
                   mkRow 3 [VStr "Di"; VStr "Hawks"; VNum 5] ])
           2 eq_refl ltac:(discriminate) eq_refl).
Qed.

Lemma refiltering_keeps_rows_witness :
  filtered Batting hawks_sorted hawks_by_HR (Ok hawks_sorted).
Proof.
  apply (refiltering_keeps_rows Batting three_batters hawks_sorted hawks_by_HR).
  - repeat constructor; simpl; intuition discriminate.
  - right. simpl. intros r [<-|[<-|[<-|[<-|[]]]]]; reflexivity.
  - exact hawks_sorted_once.
Defined.

(** C7 as stated fails: the block applied to the tied batters may leave
    the moved order, and applied to that result with the same selection
    may leave the first order again, which is another table. *)
Lemma refiltering_may_reorder_ties :
  batting_filtered tied_table by_HR (Ok moved_table) /\
  batting_filtered moved_table by_HR (Ok tied_table) /\
  tied_table <> moved_table.
Proof.
  split; [exact (proj1 tied_rows_may_move)|].
  split; [exact (proj2 tied_rows_may_move)|].
  intros H. apply (f_equal (fun t => map label (rows t))) in H.
  vm_compute in H. discriminate.
Qed.

(* ===================================================================== *)
(** * Further properties *)
(* ===================================================================== *)

(** ** What [fetch] lets through *)

Lemma raise_for_status_cases url r :
  ((400 <= status_code r < 600)%Z /\
   exists msg, raise_for_status url r = Raise (HTTPError msg)) \/
  (~ (400 <= status_code r < 600)%Z /\ raise_for_status url r = Ok tt).
Proof.
  unfold raise_for_status.
  destruct ((400 <=? status_code r)%Z && (status_code r <? 500)%Z) eqn:E1.
  - left. apply andb_true_iff in E1 as [H1 H2].
    apply Z.leb_le in H1. apply Z.ltb_lt in H2.
    split; [lia | eexists; reflexivity].
  - destruct ((500 <=? status_code r)%Z && (status_code r <? 600)%Z) eqn:E2.
    + left. apply andb_true_iff in E2 as [H1 H2].
      apply Z.leb_le in H1. apply Z.ltb_lt in H2.
      split; [lia | eexists; reflexivity].
    + right. split; [|reflexivity].
      apply andb_false_iff in E1. apply andb_false_iff in E2.
      rewrite !Z.leb_gt, !Z.ltb_ge in *. lia.
Qed.

(** X1: a response whose status is not 4xx or 5xx is handed to the JSON
    parser whatever the status is: [fetch] returns the parsed body and
    prints nothing, and when the body is not JSON the parser's exception
    reaches the caller. *)
Theorem fetch_hands_over_body requests_get endpoint response :
  requests_get (BASE_URL +++ "/" +++ endpoint) = Responded response ->
  ~ (400 <= status_code response < 600)%Z ->
  let o := fetch requests_get endpoint in
  printed o = [] /\
  (forall body, json_body response = Some body -> ret o = Ok body) /\
  (json_body response = None -> ret o = Raise JSONDecodeError).
Proof.
  intros Hget Hst. unfold fetch. rewrite Hget.
  destruct (raise_for_status_cases (BASE_URL +++ "/" +++ endpoint) response)
    as [[H _]|[_ H]]; [contradiction|].
  rewrite H. cbn. unfold json. split; [reflexivity|].
  split; [intros body -> | intros ->]; reflexivity.
Qed.

Lemma fetch_hands_over_body_witness :
  ret (fetch (answers 304) "baseball/season/stats/34102/json")
  = Raise JSONDecodeError.
Proof.
  apply (fetch_hands_over_body (answers 304) "baseball/season/stats/34102/json"
           (mkResponse 304 "" None)).
  - reflexivity.
  - simpl. lia.
  - reflexivity.
Defined.

(** X2: [fetch] never raises an [HTTPError]; when it raises, nothing was
    printed; and when something was printed, it is one line and the
    result is the empty mapping. *)
Theorem fetch_prints_only_with_empty_mapping requests_get endpoint :
  let o := fetch requests_get endpoint in
  (forall msg, ret o <> Raise (HTTPError msg)) /\
  (forall e, ret o = Raise e -> printed o = []) /\
  (printed o <> [] -> ret o = Ok (VDict []) /\ length (printed o) = 1).
Proof.
  unfold fetch.
  destruct (requests_get (BASE_URL +++ "/" +++ endpoint)) as [response|e].
  - destruct (raise_for_status_cases (BASE_URL +++ "/" +++ endpoint) response)
      as [[_ [msg H]]|[_ H]]; rewrite H.
    + destruct (status_code response =? 404)%Z; cbn;
        (split; [discriminate|]); (split; [discriminate|]);
        intros _; split; reflexivity.
    + cbn. unfold json. split.
      * destruct (json_body response); discriminate.
      * split; [reflexivity | intros H0; contradiction].
  - destruct e; cbn; (split; [discriminate|]);
      (split; [reflexivity | intros H0; contradiction]).
Qed.

(** ** Extraction at its edges *)

Lemma player_path_stops category data :
  stops_at ["stats"; category; "player"] data = true ->
  player_path category data = Ok (VList []).
Proof.
  unfold player_path, get. cbn [stops_at].
  destruct data as [| | | | | |d]; try discriminate. cbn [bind].
  destruct (lookup "stats" d) as [stats|]; [|reflexivity].
  destruct stats as [| | | | | |s]; try discriminate. cbn [bind].
  destruct (lookup category s) as [cat|]; [|reflexivity].
  destruct cat as [| | | | | |b]; try discriminate.
  destruct (lookup "player" b); [discriminate | reflexivity].
Qed.

(** X3: when the lookup path of an extractor runs through mappings into a
    missing key, at whatever level, the extractor returns the table
    without rows and columns. *)
Theorem missing_key_gives_empty_table (other : value -> result DataFrame)
  (data : value) :
  (stops_at ["stats"; "batting"; "player"] data = true ->
   batting_of other data = Ok (mkDF [] [])) /\
  (stops_at ["stats"; "pitching"; "player"] data = true ->
   pitching_of other data = Ok (mkDF [] [])) /\
  (stops_at ["stats"; "position"] data = true ->
   fielding_of other data = Ok (mkDF [] [])).
Proof.
  split; [|split]; intros H.
  - unfold batting_of. now rewrite (player_path_stops _ _ H).
  - unfold pitching_of. now rewrite (player_path_stops _ _ H).
  - unfold fielding_of, fielding_players, get. cbn [stops_at] in H.
    destruct data as [| | | | | |d]; try discriminate. cbn [bind].
    destruct (lookup "stats" d) as [stats|]; [|reflexivity].
    destruct stats as [| | | | | |s]; try discriminate. cbn [bind].
    destruct (lookup "position" s); [discriminate | reflexivity].
Qed.

Lemma missing_key_gives_empty_table_witness :
  batting_of (fun _ => Raise ValueError) (VDict [("stats", VDict [])])
  = Ok (mkDF [] []) /\
  pitching_of (fun _ => Raise ValueError) scenario_A = Ok (mkDF [] []) /\
  fielding_of (fun _ => Raise ValueError) (VDict []) = Ok (mkDF [] []).
Proof.
  split; [|split].
  - apply (missing_key_gives_empty_table (fun _ => Raise ValueError)
             (VDict [("stats", VDict [])])). reflexivity.
  - apply (missing_key_gives_empty_table (fun _ => Raise ValueError)
             scenario_A). reflexivity.
  - apply (missing_key_gives_empty_table (fun _ => Raise ValueError)
             (VDict [])). reflexivity.
Defined.

Lemma fetch_error_status requests_get endpoint response :
  requests_get (BASE_URL +++ "/" +++ endpoint) = Responded response ->
  (400 <= status_code response < 600)%Z ->
  exists line, fetch requests_get endpoint = mkOutcome (Ok (VDict [])) [line].
Proof.
  intros Hget Hst. unfold fetch. rewrite Hget.
  destruct (raise_for_status_cases (BASE_URL +++ "/" +++ endpoint) response)
    as [[_ [msg H]]|[H _]]; [|contradiction].
  rewrite H. destruct (status_code response =? 404)%Z; eexists; reflexivity.
Qed.

(** X4: when the service answers every request with a 4xx or 5xx status,
    each extractor prints one line and returns the table without columns,
    cleaning it gives the table without columns, and on that table the
    first selector of the page raises [KeyError] for TEAM. *)
Theorem http_error_stops_at_first_selector
  (requests_get : string -> get_outcome)
  (other : value -> result DataFrame)
  (other_values : list value -> result (list value)) (season_id : Z) :
  (forall url, exists response,
      requests_get url = Responded response /\
      (400 <= status_code response < 600)%Z) ->
  forall c,
    let o := match c with
             | Batting => get_batting_stats requests_get other season_id
             | Fielding => get_fielding_stats requests_get other season_id
             | Pitching => get_pitching_stats requests_get other season_id
             end in
    ret o = Ok (mkDF [] []) /\
    length (printed o) = 1 /\
    (df <- ret o ;; cleaned (tables_of c) df) = Ok (mkDF [] []) /\
    (df <- ret o ;; df' <- cleaned (tables_of c) df ;;
     team_options other_values df') = Raise (KeyError "TEAM").
Proof.
  intros Hnet c.
  assert (Hfetch : forall endpoint, exists line,
             fetch requests_get endpoint = mkOutcome (Ok (VDict [])) [line]).
  { intros endpoint.
    destruct (Hnet (BASE_URL +++ "/" +++ endpoint)) as [r [Hr Hst]].
    exact (fetch_error_status _ _ _ Hr Hst). }
  destruct c; cbv zeta;
    unfold get_batting_stats, get_fielding_stats, get_pitching_stats, after_fetch;
    match goal with
    | |- context [fetch requests_get ?e] =>
        destruct (Hfetch e) as [line Hline]; rewrite Hline
    end; repeat split.
Qed.

Lemma http_error_stops_at_first_selector_witness :
  (df <- ret (get_batting_stats not_found (fun _ => Raise ValueError) 34102) ;;
   df' <- cleaned batting_tables df ;;
   team_options (fun _ => Raise TypeError) df') = Raise (KeyError "TEAM").
Proof.
  assert (H : forall url, exists response,
             not_found url = Responded response /\
             (400 <= status_code response < 600)%Z).
  { intros url. exists (mkResponse 404 "Not Found" None).
    split; [reflexivity | simpl; lia]. }
  apply (http_error_stops_at_first_selector not_found
           (fun _ => Raise ValueError) (fun _ => Raise TypeError) 34102
           H Batting).
Defined.

(** X5: the table an extractor builds from a list of player records has
    distinct column labels, namely the keys of the records, one cell per
    column in every row, and rows labelled 0, 1, 2, ... in the order of the
    records; every field of every record that is not null is found again
    in its row under the field's name. *)
Theorem extracted_table_keeps_fields (other : value -> result DataFrame)
  (l : list value) :
  forallb isinstance_dict l = true ->
  exists df,
    DataFrame_of other (VList l) = Ok df /\
    unique_columns df /\
    aligned df /\
    map label (rows df) = seq 0 (length l) /\
    (forall c, In c (columns df) <->
               exists d, In (VDict d) l /\ In c (keys d)) /\
    Forall2 (row_holds df) l (rows df).
Proof.
  intros Hl. destruct (as_records_dicts l Hl) as [recs [Er Hlen]].
  pose proof (as_records_map _ _ Er) as Hmap.
  exists (from_records recs). cbn [DataFrame_of]. rewrite Er.
  split; [reflexivity|].
  destruct (records_table recs) as [H1 [H2 [H3 [H4 H5]]]].
  rewrite Hmap. split; [exact H1|]. split; [exact H2|].
  split; [now rewrite length_map|]. split; [|exact H5].
  intros c. rewrite H4. split.
  - intros [d [Hd Hc]]. exists d. split; [now apply in_map | exact Hc].
  - intros [d [Hd Hc]]. exists d. split; [|exact Hc].
    apply in_map_iff in Hd as [d' [[= ->] Hd']]. exact Hd'.
Qed.

Lemma extracted_table_keeps_fields_witness :
  exists df,
    DataFrame_of (fun _ => Raise ValueError)
      (VList [VDict [("name", VStr "Ann"); ("gp", VStr "3")];
              VDict [("name", VStr "Bo"); ("gp", VNone)]]) = Ok df /\
    unique_columns df /\ aligned df /\ map label (rows df) = [0; 1].
Proof.
  destruct (extracted_table_keeps_fields (fun _ => Raise ValueError)
              [VDict [("name", VStr "Ann"); ("gp", VStr "3")];
               VDict [("name", VStr "Bo"); ("gp", VNone)]] eq_refl)
    as [df [H1 [H2 [H3 [H4 _]]]]].
  exists df. auto.
Defined.

(** ** What the list guard does not cover *)

Lemma collect_players_app gs1 gs2 players :
  collect_players (gs1 ++ gs2) players
  = (players' <- collect_players gs1 players ;; collect_players gs2 players').
Proof.
  revert players. induction gs1 as [|g gs1 IH]; intros players; [reflexivity|].
  cbn [app collect_players].
  destruct (get g "player" (VList [])) as [pl|e]; [|reflexivity]. cbn [bind].
  destruct (match pl with
            | VList l => tag_players g l players
            | _ => Ok players
            end) as [ps|e]; [|reflexivity].
  cbn [bind]. apply IH.
Qed.

Lemma tag_players_bad_entry g l players :
  isinstance_dict g = true ->
  forallb isinstance_dict l = false ->
  tag_players g l players = Raise TypeError.
Proof.
  intros Hg. revert players.
  induction l as [|v l IH]; intros players H; [discriminate|].
  destruct g as [| | | | | |gd]; try discriminate.
  cbn [tag_players get bind]. cbn [forallb] in H.
  destruct v; try reflexivity.
  cbn [setitem bind]. apply IH. exact H.
Qed.

(** X6: the fielding extractor checks that [player] is a list and nothing
    else.  After any number of well-formed groups, a group that is not a
    mapping makes it raise [AttributeError], and a player list with an
    entry that is not a mapping makes it raise [TypeError]; no table is
    returned. *)
Theorem fielding_malformed_group_raises (other : value -> result DataFrame)
  (d s : list (string * value)) (gs1 gs2 : list value) (bad : value) :
  lookup "stats" d = Some (VDict s) ->
  lookup "position" s = Some (VList (gs1 ++ bad :: gs2)) ->
  forallb group_ok gs1 = true ->
  (isinstance_dict bad = false ->
   fielding_of other (VDict d) = Raise AttributeError) /\
  (forall gd l, bad = VDict gd ->
     lookup "player" gd = Some (VList l) ->
     forallb isinstance_dict l = false ->
     fielding_of other (VDict d) = Raise TypeError).
Proof.
  intros Hs Hp Hg.
  assert (E : fielding_players (VDict d)
              = collect_players (bad :: gs2) (flat_map group_records gs1)).
  { unfold fielding_players. cbn [get bind]. rewrite Hs. cbn [get bind].
    rewrite Hp. cbn [iterate bind].
    rewrite collect_players_app, (collect_players_shaped gs1 [] Hg).
    reflexivity. }
  unfold fielding_of. rewrite E. split.
  - intros Hbad. destruct bad; try reflexivity. discriminate.
  - intros gd l -> Hl Hbad. cbn [collect_players get bind]. rewrite Hl.
    cbn [bind]. now rewrite (tag_players_bad_entry (VDict gd) l _ eq_refl Hbad).
Qed.

Lemma fielding_malformed_group_raises_witness :
  fielding_of (fun _ => Raise ValueError)
    (VDict [("stats", VDict [("position", VList
       [VDict [("position", VStr "SS");
               ("player", VList [VDict [("name", VStr "Ann")]])];
        VDict [("position", VStr "C");
               ("player", VList [VStr "Bo"])]])])])
  = Raise TypeError.
Proof.
  refine (proj2 (fielding_malformed_group_raises (fun _ => Raise ValueError)
           [("stats", VDict [("position", VList
              [VDict [("position", VStr "SS");
                      ("player", VList [VDict [("name", VStr "Ann")]])];
               VDict [("position", VStr "C");
                      ("player", VList [VStr "Bo"])]])])]
           [("position", VList
              [VDict [("position", VStr "SS");
                      ("player", VList [VDict [("name", VStr "Ann")]])];
               VDict [("position", VStr "C");
                      ("player", VList [VStr "Bo"])]])]
           [VDict [("position", VStr "SS");
                   ("player", VList [VDict [("name", VStr "Ann")]])]]
           [] (VDict [("position", VStr "C"); ("player", VList [VStr "Bo"])])
           eq_refl eq_refl eq_refl)
         [("position", VStr "C"); ("player", VList [VStr "Bo"])]
         [VStr "Bo"] eq_refl eq_refl eq_refl).
Defined.

(** ** Cleaning: rows, exceptions, numbers, labels *)

Lemma cleaned_eq t df : cleaned t df = clean_rest t (unwrap_teamname df).
Proof.
  unfold cleaned, clean_df. cbn [read write nth].
  destruct (clean_rest t (unwrap_teamname df)); reflexivity.
Qed.

Lemma apply_column_labels c f df :
  map label (rows (apply_column c f df)) = map label (rows df).
Proof.
  unfold apply_column. cbn [rows]. rewrite map_map. reflexivity.
Qed.

Lemma take_positions_labels ps df :
  map label (rows (take_positions ps df)) = map label (rows df).
Proof.
  unfold take_positions. cbn [rows]. rewrite map_map. reflexivity.
Qed.

Lemma coerce_numeric_columns n df df' :
  coerce_numeric n df = Ok df' -> columns df' = columns df.
Proof.
  revert df. induction n as [|c n IH]; intros df; cbn [coerce_numeric].
  - now intros [= <-].
  - destruct (mem c (columns df)); [|apply IH].
    destruct (count c (columns df) =? 1)%nat; [|discriminate].
    intros H. now rewrite (IH _ H).
Qed.

Lemma coerce_numeric_labels n df df' :
  coerce_numeric n df = Ok df' -> map label (rows df') = map label (rows df).
Proof.
  revert df. induction n as [|c n IH]; intros df; cbn [coerce_numeric].
  - now intros [= <-].
  - destruct (mem c (columns df)); [|apply IH].
    destruct (count c (columns df) =? 1)%nat; [|discriminate].
    intros H. now rewrite (IH _ H), apply_column_labels.
Qed.

Lemma unwrap_teamname_labels df :
  map label (rows (unwrap_teamname df)) = map label (rows df).
Proof.
  unfold unwrap_teamname. destruct (mem "teamname" (columns df));
    [apply apply_column_labels | reflexivity].
Qed.

Lemma take_positions_aligned ps df : aligned (take_positions ps df).
Proof.
  unfold aligned, take_positions. cbn [rows columns].
  apply Forall_forall. intros r Hr. apply in_map_iff in Hr as [r0 [<- _]].
  cbn [cells]. now rewrite !length_map.
Qed.

(** X7: a cleaning function never drops, adds or reorders rows: the table
    it returns has the labels of the input's rows in the input's order, and
    each of its rows has one cell per column. *)
Theorem cleaning_keeps_rows (t : tables) (df out : DataFrame) :
  cleaned t df = Ok out ->
  map label (rows out) = map label (rows df) /\ aligned out.
Proof.
  rewrite cleaned_eq. unfold clean_rest.
  destruct (coerce_numeric _ _) as [df'|e] eqn:E; [|discriminate].
  cbn [bind]. intros [= <-]. split.
  - unfold reorder, select. rewrite take_positions_labels.
    rewrite (coerce_numeric_labels _ _ _ E).
    unfold upper_columns, rename, set_columns, drop_present, drop.
    cbn [rows]. rewrite take_positions_labels. apply unwrap_teamname_labels.
  - apply take_positions_aligned.
Qed.

Lemma cleaning_keeps_rows_witness :
  map label (rows three_batters) = [0; 1; 2; 3] /\
  exists out, cleaned batting_tables three_batters = Ok out /\
              map label (rows out) = [0; 1; 2; 3].
Proof.
  split; [reflexivity|]. eexists. split; [reflexivity|].
  apply (cleaning_keeps_rows batting_tables three_batters). reflexivity.
Defined.

Lemma coerce_numeric_raises n df e :
  coerce_numeric n df = Raise e ->
  e = TypeError /\ exists c, 2 <= count c (columns df).
Proof.
  revert df. induction n as [|c n IH]; intros df; cbn [coerce_numeric];
    [discriminate|].
  destruct (mem c (columns df)) eqn:Em; [|apply IH].
  destruct (count c (columns df) =? 1)%nat eqn:Ec.
  - intros H. apply IH in H. exact H.
  - intros [= <-]. split; [reflexivity|]. exists c.
    apply Nat.eqb_neq in Ec. apply mem_In in Em.
    assert (count c (columns df) <> 0); [|lia].
    unfold count. intros H0. apply length_zero_iff_nil in H0.
    assert (Hin : In c (filter (String.eqb c) (columns df)))
      by (apply filter_In; split; [exact Em | apply String.eqb_refl]).
    rewrite H0 in Hin. contradiction.
Qed.

Lemma NoDup_count c cs : NoDup cs -> count c cs <= 1.
Proof.
  unfold count. induction 1 as [|x cs Hx _ IH]; simpl; [lia|].
  destruct (String.eqb c x) eqn:E; [|exact IH].
  apply String.eqb_eq in E. subst x. simpl.
  assert (H0 : filter (String.eqb c) cs = []).
  { apply filter_none. apply Forall_forall. intros y Hy.
    apply String.eqb_neq. intros ->. contradiction. }
  rewrite H0. simpl. lia.
Qed.

Lemma coerce_numeric_is_ok n df df' :
  columns df = columns df' ->
  is_ok (coerce_numeric n df) = is_ok (coerce_numeric n df').
Proof.
  revert df df'. induction n as [|c n IH]; intros df df' H;
    cbn [coerce_numeric]; [reflexivity|].
  rewrite <- H. destruct (mem c (columns df)); [|now apply IH].
  destruct (count c (columns df) =? 1)%nat; [|reflexivity].
  apply IH. unfold apply_column. cbn [columns]. exact H.
Qed.

Lemma renamed_columns_eq t cs rs :
  columns (upper_columns t (rename t
             (drop_present t (unwrap_teamname (mkDF cs rs)))))
  = renamed_columns t cs.
Proof.
  unfold renamed_columns, unwrap_teamname. cbn [columns].
  destruct (mem "teamname" cs); reflexivity.
Qed.

Lemma nth_apply_cells c f cs vs q :
  nth q (apply_cells c f cs vs) VNaN
  = match nth_error cs q, nth_error vs q with
    | Some c', Some v => if String.eqb c c' then f v else v
    | _, _ => VNaN
    end.
Proof.
  unfold apply_cells. revert vs q.
  induction cs as [|c' cs IH]; intros vs q.
  - destruct q; reflexivity.
  - destruct vs as [|v vs].
    + destruct q; cbn; [reflexivity|]. now destruct (nth_error cs q).
    + destruct q; cbn; [reflexivity | apply IH].
Qed.

Lemma to_numeric_numeric v : numeric_cell (to_numeric v) = true.
Proof.
  destruct v; cbn; try reflexivity. now destruct (parse_float s).
Qed.

Lemma nth_error_cell q r v : nth_error (cells r) q = Some v -> cell q r = v.
Proof.
  intros H. unfold cell. now apply nth_error_nth.
Qed.

Lemma nth_error_cell_none q r : nth_error (cells r) q = None -> cell q r = VNaN.
Proof.
  intros H. unfold cell. apply nth_overflow. now apply nth_error_None.
Qed.

Lemma apply_column_numeric c c' df :
  (c' = c \/ numeric_under c df) ->
  numeric_under c (apply_column c' to_numeric df).
Proof.
  intros H q r Hq Hr. unfold apply_column in *. cbn [columns rows] in *.
  apply in_map_iff in Hr as [r0 [<- Hr0]].
  unfold cell. cbn [cells]. rewrite nth_apply_cells, Hq.
  destruct (nth_error (cells r0) q) as [v|] eqn:Ev; [|reflexivity].
  destruct (String.eqb c' c) eqn:E; [apply to_numeric_numeric|].
  destruct H as [->|H]; [rewrite String.eqb_refl in E; discriminate|].
  rewrite <- (nth_error_cell _ _ _ Ev). now apply H.
Qed.

Lemma coerce_numeric_keeps_numeric n c df df' :
  coerce_numeric n df = Ok df' -> numeric_under c df -> numeric_under c df'.
Proof.
  revert df. induction n as [|c0 n IH]; intros df; cbn [coerce_numeric].
  - now intros [= <-].
  - destruct (mem c0 (columns df)); [|apply IH].
    destruct (count c0 (columns df) =? 1)%nat; [|discriminate].
    intros H Hc. apply (IH _ H). apply apply_column_numeric. now right.
Qed.

Lemma coerce_numeric_makes_numeric n c df df' :
  coerce_numeric n df = Ok df' -> In c n -> numeric_under c df'.
Proof.
  revert df. induction n as [|c0 n IH]; intros df; cbn [coerce_numeric];
    [intros _ []|].
  intros H [->|Hin].
  - destruct (mem c (columns df)) eqn:Em.
    + destruct (count c (columns df) =? 1)%nat; [|discriminate].
      apply (coerce_numeric_keeps_numeric _ _ _ _ H).
      apply apply_column_numeric. now left.
    + intros q r Hq _. rewrite (coerce_numeric_columns _ _ _ H) in Hq.
      apply nth_error_In, mem_In in Hq. congruence.
  - destruct (mem c0 (columns df)); [|now apply (IH df)].
    destruct (count c0 (columns df) =? 1)%nat; [|discriminate].
    now apply (IH _ H).
Qed.

Lemma positions_from_nth n c cs p :
  In p (positions_from n c cs) -> n <= p /\ nth_error cs (p - n) = Some c.
Proof.
  revert n. induction cs as [|c' cs IH]; intros n; cbn [positions_from];
    [intros []|].
  destruct (String.eqb c c') eqn:E.
  - intros [<-|H].
    + rewrite Nat.sub_diag. apply String.eqb_eq in E. subst. now split.
    + apply IH in H as [H1 H2]. split; [lia|].
      replace (p - n) with (S (p - S n)) by lia. exact H2.
  - intros H. apply IH in H as [H1 H2]. split; [lia|].
    replace (p - n) with (S (p - S n)) by lia. exact H2.
Qed.

Lemma selected_positions_nth order cs p :
  In p (flat_map (fun c => positions c cs) order) ->
  exists c, nth_error cs p = Some c.
Proof.
  intros H. apply in_flat_map in H as [c [_ H]].
  apply positions_from_nth in H as [_ H]. rewrite Nat.sub_0_r in H. eauto.
Qed.

Lemma take_positions_label ps df i c :
  (forall p, In p ps -> exists c', nth_error (columns df) p = Some c') ->
  nth_error (columns (take_positions ps df)) i = Some c ->
  exists p, nth_error ps i = Some p /\ nth_error (columns df) p = Some c.
Proof.
  intros Hps. unfold take_positions. cbn [columns].
  rewrite nth_error_map. destruct (nth_error ps i) as [p|] eqn:Ep;
    [|discriminate].
  cbn. intros [= <-]. exists p. split; [reflexivity|].
  destruct (Hps p (nth_error_In _ _ Ep)) as [c' Hc'].
  rewrite Hc'. f_equal. symmetry. now apply nth_error_nth.
Qed.

Lemma take_positions_cell ps i p r :
  nth_error ps i = Some p ->
  cell i (mkRow (label r) (map (fun p => cell p r) ps)) = cell p r.
Proof.
  intros H. apply nth_error_cell. cbn [cells]. now rewrite nth_error_map, H.
Qed.

Lemma take_positions_numeric ps df c :
  (forall p, In p ps -> exists c', nth_error (columns df) p = Some c') ->
  numeric_under c df -> numeric_under c (take_positions ps df).
Proof.
  intros Hps H i r Hi Hr.
  destruct (take_positions_label ps df i c Hps Hi) as [p [Hp Hc]].
  unfold take_positions in Hr. cbn [rows] in Hr.
  apply in_map_iff in Hr as [r0 [<- Hr0]].
  rewrite (take_positions_cell ps i p r0 Hp). now apply H.
Qed.

Lemma numeric_under_column c df :
  In c (columns df) -> numeric_under c df -> numeric_column c df.
Proof.
  intros Hin H. unfold numeric_column.
  destruct (col_pos_In _ _ Hin) as [p Hp]. rewrite Hp.
  intros r Hr. apply (H p r); [now apply col_pos_nth | exact Hr].
Qed.

(** X9: in the table a cleaning function returns, every column named in
    its list of numeric columns holds numbers and missing cells only,
    whatever the input cells were; such a column is one the sort may be
    applied to. *)
Theorem cleaned_numeric_columns (t : tables) (df out : DataFrame) (c : string) :
  cleaned t df = Ok out ->
  In c (numeric_cols t) ->
  In c (columns out) ->
  numeric_column c out.
Proof.
  rewrite cleaned_eq. unfold clean_rest.
  destruct (coerce_numeric _ _) as [df'|e] eqn:E; [|discriminate].
  cbn [bind]. intros [= <-] Hc Hin.
  apply numeric_under_column; [exact Hin|].
  unfold reorder, select. apply take_positions_numeric.
  - intros p Hp. now apply selected_positions_nth in Hp.
  - now apply (coerce_numeric_makes_numeric _ _ _ _ E).
Qed.

Lemma cleaned_numeric_columns_witness :
  exists out,
    (df <- batting_of (fun _ => Raise ValueError) scenario_A ;;
     cleaned batting_tables df) = Ok out /\
    numeric_column "AVG" out.
Proof.
  eexists. split; [reflexivity|].
  apply (cleaned_numeric_columns batting_tables
           (mkDF ["playername"; "teamname"; "jersey"; "avg"]
                 [mkRow 0 [VStr "J Smith"; VDict [("$t", VStr "Hawks")];
                           VStr "7"; VStr ".345"]])).
  - reflexivity.
  - simpl. tauto.
  - simpl. tauto.
Defined.

(** ** Labels of a cleaned table *)

Lemma upper_ascii_not_lower c : is_lower (upper_ascii c) = false.
Proof.
  unfold upper_ascii, is_lower.
  destruct ((97 <=? nat_of_ascii c)%nat && (nat_of_ascii c <=? 122)%nat) eqn:E.
  - apply andb_true_iff in E as [H1 H2].
    apply Nat.leb_le in H1. apply Nat.leb_le in H2.
    rewrite nat_ascii_embedding by lia.
    apply andb_false_iff. left. apply Nat.leb_gt. lia.
  - exact E.
Qed.

Lemma upper_is_upper_case s : upper_case (upper s) = true.
Proof.
  induction s as [|c s IH]; [reflexivity|].
  cbn [upper upper_case]. now rewrite upper_ascii_not_lower, IH.
Qed.

Lemma assoc_In k m v : assoc k m = Some v -> In v (map snd m).
Proof.
  induction m as [|[k' v'] m IH]; simpl; [discriminate|].
  destruct (String.eqb k k'); [intros [= ->]; now left | auto].
Qed.

(** X10: every column label of a table that a cleaning function of the
    page returns is free of lower-case letters, so the labels the page
    looks up later (TEAM, PLAYER, P) cannot be met in another case. *)
Theorem cleaned_labels_upper_case (c : category) (df out : DataFrame) :
  cleaned (tables_of c) df = Ok out ->
  Forall (fun l => upper_case l = true) (columns out).
Proof.
  rewrite cleaned_eq. unfold clean_rest.
  destruct (coerce_numeric _ _) as [df'|e] eqn:E; [|discriminate].
  cbn [bind]. intros [= <-].
  assert (Htargets : Forall (fun l => upper_case l = true)
                            (map snd (rename_map (tables_of c))))
    by (destruct c; repeat constructor).
  assert (H2 : Forall (fun l => upper_case l = true) (columns df')).
  { rewrite (coerce_numeric_columns _ _ _ E).
    unfold upper_columns, set_columns. cbn [columns].
    apply Forall_forall. intros l Hl. apply in_map_iff in Hl as [l0 [<- _]].
    destruct (assoc l0 (rename_map (tables_of c))) as [l1|] eqn:Ea.
    - rewrite Forall_forall in Htargets. apply Htargets.
      now apply (assoc_In l0).
    - apply upper_is_upper_case. }
  apply Forall_forall. intros l Hl.
  apply In_nth_error in Hl as [i Hi].
  unfold reorder, select in Hi.
  apply take_positions_label in Hi as [p [_ Hp]].
  - rewrite Forall_forall in H2. apply H2. now apply nth_error_In in Hp.
  - intros q Hq. now apply selected_positions_nth in Hq.
Qed.

Lemma cleaned_labels_upper_case_witness :
  exists out,
    cleaned fielding_tables
      (mkDF ["name"; "Gp"; "teamname"] [mkRow 0 [VStr "Ann"; VStr "3"; VStr "Owls"]])
    = Ok out /\
    Forall (fun l => upper_case l = true) (columns out).
Proof.
  eexists. split; [reflexivity|].
  apply (cleaned_labels_upper_case Fielding
           (mkDF ["name"; "Gp"; "teamname"]
                 [mkRow 0 [VStr "Ann"; VStr "3"; VStr "Owls"]])).
  reflexivity.
Defined.

(** ** Cleaning, cell by cell *)

Lemma col_pos_NoDup cs p k :
  NoDup cs -> nth_error cs p = Some k -> col_pos k cs = Some p.
Proof.
  intros Hnd. revert p. induction Hnd as [|c cs Hc _ IH]; intros p;
    [destruct p; discriminate|].
  destruct p as [|p]; cbn.
  - intros [= ->]. now rewrite String.eqb_refl.
  - intros H. destruct (String.eqb k c) eqn:E.
    + apply String.eqb_eq in E. subst c. apply nth_error_In in H.
      contradiction.
    + now rewrite (IH p H).
Qed.

Lemma field_apply_column c f df r k :
  f VNaN = VNaN ->
  field k (apply_column c f df)
        (mkRow (label r) (apply_cells c f (columns df) (cells r)))
  = if String.eqb c k then f (field k df r) else field k df r.
Proof.
  intros Hf. unfold field, apply_column. cbn [columns].
  destruct (col_pos k (columns df)) as [p|] eqn:Ep.
  - unfold cell at 1. cbn [cells].
    rewrite nth_apply_cells, (col_pos_nth _ _ _ Ep).
    destruct (nth_error (cells r) p) as [v|] eqn:Ev.
    + now rewrite (nth_error_cell _ _ _ Ev).
    + rewrite (nth_error_cell_none _ _ Ev), Hf.
      now destruct (String.eqb c k).
  - rewrite Hf. now destruct (String.eqb c k).
Qed.

Lemma field_take_positions ps df r k :
  NoDup (columns df) ->
  (forall p, In p ps -> exists c, nth_error (columns df) p = Some c) ->
  In k (columns (take_positions ps df)) ->
  field k (take_positions ps df)
        (mkRow (label r) (map (fun p => cell p r) ps))
  = field k df r.
Proof.
  intros Hnd Hps Hin. unfold field.
  destruct (col_pos_In _ _ Hin) as [i Hi]. rewrite Hi.
  apply col_pos_nth in Hi.
  destruct (take_positions_label ps df i k Hps Hi) as [p [Hp Hk]].
  rewrite (col_pos_NoDup _ _ _ Hnd Hk).
  now apply take_positions_cell.
Qed.

Lemma field_relabel (h : string -> string) cs rs r k :
  NoDup (map h cs) -> In k cs ->
  field (h k) (mkDF (map h cs) rs) r = field k (mkDF cs rs) r.
Proof.
  intros Hnd Hin. unfold field. cbn [columns].
  destruct (col_pos_In _ _ Hin) as [p Hp]. rewrite Hp.
  apply col_pos_nth in Hp.
  assert (Hh : nth_error (map h cs) p = Some (h k))
    by now rewrite nth_error_map, Hp.
  now rewrite (col_pos_NoDup _ _ _ Hnd Hh).
Qed.

Lemma to_numeric_twice v : to_numeric (to_numeric v) = to_numeric v.
Proof.
  destruct v; cbn; try reflexivity. now destruct (parse_float s).
Qed.

Lemma mem_cons_eqb k c n : mem k (c :: n) = String.eqb k c || mem k n.
Proof.
  reflexivity.
Qed.

Lemma field_absent k df r : ~ In k (columns df) -> field k df r = VNaN.
Proof.
  intros H. unfold field. apply col_pos_None in H. now rewrite H.
Qed.

(** The coercion loop, row by row. *)
Lemma coerce_numeric_rows n df df' i r :
  coerce_numeric n df = Ok df' ->
  nth_error (rows df) i = Some r ->
  exists r', nth_error (rows df') i = Some r' /\
    label r' = label r /\
    forall k, field k df' r'
              = if mem k n then to_numeric (field k df r) else field k df r.
Proof.
  revert df r. induction n as [|c n IH]; intros df r; cbn [coerce_numeric].
  - intros [= <-] Hr. exists r. repeat split; auto.
  - destruct (mem c (columns df)) eqn:Em.
    + destruct (count c (columns df) =? 1)%nat; [|discriminate].
      intros H Hr.
      assert (Hr1 : nth_error (rows (apply_column c to_numeric df)) i
                    = Some (mkRow (label r)
                              (apply_cells c to_numeric (columns df) (cells r)))).
      { unfold apply_column. cbn [rows]. now rewrite nth_error_map, Hr. }
      destruct (IH _ _ H Hr1) as [r' [Hr' [Hl Hf]]].
      exists r'. split; [exact Hr'|]. split; [exact Hl|].
      intros k. rewrite Hf, field_apply_column by reflexivity.
      rewrite mem_cons_eqb, (String.eqb_sym k c).
      destruct (String.eqb c k); cbn [orb].
      * destruct (mem k n); [apply to_numeric_twice | reflexivity].
      * reflexivity.
    + intros H Hr. destruct (IH _ _ H Hr) as [r' [Hr' [Hl Hf]]].
      exists r'. split; [exact Hr'|]. split; [exact Hl|].
      intros k. rewrite Hf, mem_cons_eqb.
      destruct (String.eqb k c) eqn:E; [|reflexivity].
      apply String.eqb_eq in E. subst k. cbn [orb].
      apply mem_false in Em. rewrite (field_absent c df r Em).
      now destruct (mem c n).
Qed.

Lemma kept_positions_nth n gone cs p :
  In p (kept_positions n gone cs) ->
  n <= p /\ exists c, nth_error cs (p - n) = Some c /\ mem c gone = false.
Proof.
  revert n. induction cs as [|c cs IH]; intros n; cbn [kept_positions];
    [intros []|].
  assert (Hstep : In p (kept_positions (S n) gone cs) ->
                  n <= p /\ exists c0, nth_error (c :: cs) (p - n) = Some c0
                                       /\ mem c0 gone = false).
  { intros H. apply IH in H as [H1 [c0 [H2 H3]]]. split; [lia|].
    exists c0. split; [|exact H3].
    replace (p - n) with (S (p - S n)) by lia. exact H2. }
  destruct (mem c gone) eqn:E; [exact Hstep|].
  intros [<-|H]; [|now apply Hstep].
  split; [lia|]. rewrite Nat.sub_diag. exists c. now split.
Qed.

Lemma kept_positions_complete n gone cs j c :
  nth_error cs j = Some c -> mem c gone = false ->
  In (n + j) (kept_positions n gone cs).
Proof.
  revert n j. induction cs as [|c' cs IH]; intros n [|j]; cbn;
    try discriminate.
  - intros [= ->] ->. rewrite Nat.add_0_r. now left.
  - intros H Hc. replace (n + S j) with (S n + j) by lia.
    destruct (mem c' gone); [|right]; now apply IH.
Qed.

Lemma positions_from_complete n c cs j :
  nth_error cs j = Some c -> In (n + j) (positions_from n c cs).
Proof.
  revert n j. induction cs as [|c' cs IH]; intros n [|j]; cbn;
    try discriminate.
  - intros [= ->]. rewrite String.eqb_refl, Nat.add_0_r. now left.
  - intros H. replace (n + S j) with (S n + j) by lia.
    destruct (String.eqb c c'); [right|]; now apply IH.
Qed.

Lemma positions_from_absent n c cs :
  ~ In c cs -> positions_from n c cs = [].
Proof.
  revert n. induction cs as [|c' cs IH]; intros n H; cbn; [reflexivity|].
  destruct (String.eqb c c') eqn:E.
  - apply String.eqb_eq in E. subst. exfalso. apply H. now left.
  - apply IH. intros Hin. apply H. now right.
Qed.

Lemma positions_from_NoDup n c cs p :
  NoDup cs -> nth_error cs p = Some c -> positions_from n c cs = [n + p].
Proof.
  intros Hnd. revert n p.
  induction Hnd as [|c' cs Hc _ IH]; intros n p; [destruct p; discriminate|].
  destruct p as [|p]; cbn.
  - intros [= ->]. rewrite String.eqb_refl, Nat.add_0_r.
    now rewrite positions_from_absent.
  - intros H. destruct (String.eqb c c') eqn:E.
    + apply String.eqb_eq in E. subst c'. apply nth_error_In in H.
      contradiction.
    + rewrite (IH (S n) p H). f_equal. lia.
Qed.

Lemma selected_columns order cs :
  NoDup cs -> (forall c, In c order -> In c cs) ->
  map (fun p => nth p cs "") (flat_map (fun c => positions c cs) order) = order.
Proof.
  intros Hnd. induction order as [|c order IH]; intros Hin; [reflexivity|].
  cbn [flat_map]. rewrite map_app, IH by (intros c' Hc'; apply Hin; now right).
  destruct (In_nth_error cs c (Hin c (or_introl eq_refl))) as [p Hp].
  unfold positions. rewrite (positions_from_NoDup 0 c cs p Hnd Hp).
  cbn. f_equal. now apply nth_error_nth.
Qed.

Lemma kept_columns n gone cs :
  map (fun p => nth (p - n) cs "") (kept_positions n gone cs)
  = filter (fun c => negb (mem c gone)) cs.
Proof.
  revert n. induction cs as [|c cs IH]; intros n; [reflexivity|].
  cbn [kept_positions filter].
  assert (Hshift : map (fun p => nth (p - n) (c :: cs) "")
                       (kept_positions (S n) gone cs)
                   = filter (fun c => negb (mem c gone)) cs).
  { rewrite <- (IH (S n)). apply map_ext_in. intros p Hp.
    apply kept_positions_nth in Hp as [Hp _].
    replace (p - n) with (S (p - S n)) by lia. reflexivity. }
  destruct (mem c gone); cbn [negb map]; [exact Hshift|].
  now rewrite Nat.sub_diag, Hshift.
Qed.

Lemma dropped_columns t cs rs :
  columns (drop_present t (mkDF cs rs))
  = filter (fun c => negb (mem c (drop_cols t))) cs.
Proof.
  unfold drop_present, drop, take_positions. cbn [columns].
  rewrite <- (map_ext (fun p => nth (p - 0) cs "")) by
    (intros p; now rewrite Nat.sub_0_r).
  rewrite kept_columns. apply filter_ext_in. intros c Hc. f_equal.
  apply mem_In in Hc.
  destruct (mem c (drop_cols t)) eqn:E.
  - apply mem_In. apply filter_In. split; [now apply mem_In | exact Hc].
  - apply mem_false. intros H. apply filter_In in H as [H _].
    apply mem_In in H. congruence.
Qed.

Lemma relabelled t df :
  upper_columns t (rename t df)
  = mkDF (map (new_label t) (columns df)) (rows df).
Proof.
  unfold upper_columns, rename, set_columns. cbn [columns rows].
  now rewrite map_map.
Qed.

Lemma renamed_columns_explicit t cs :
  renamed_columns t cs
  = map (new_label t) (filter (fun c => negb (mem c (drop_cols t))) cs).
Proof.
  unfold renamed_columns. now rewrite relabelled, dropped_columns.
Qed.

Lemma unwrap_teamname_rows df i r :
  nth_error (rows df) i = Some r ->
  exists r1, nth_error (rows (unwrap_teamname df)) i = Some r1 /\
    label r1 = label r /\
    forall k, In k (columns df) ->
      field k (unwrap_teamname df) r1
      = if String.eqb k "teamname" then unwrap (field k df r)
        else field k df r.
Proof.
  intros Hr. unfold unwrap_teamname.
  destruct (mem "teamname" (columns df)) eqn:Em.
  - eexists. split.
    + unfold apply_column. cbn [rows]. rewrite nth_error_map, Hr. reflexivity.
    + split; [reflexivity|]. intros k _.
      rewrite field_apply_column by reflexivity.
      now rewrite String.eqb_sym.
  - exists r. split; [exact Hr|]. split; [reflexivity|].
    intros k Hk. destruct (String.eqb k "teamname") eqn:E; [|reflexivity].
    apply String.eqb_eq in E. subst k. apply mem_In in Hk. congruence.
Qed.

Lemma unwrap_teamname_columns df : columns (unwrap_teamname df) = columns df.
Proof.
  unfold unwrap_teamname. now destruct (mem "teamname" (columns df)).
Qed.

Lemma reordered_columns t df :
  NoDup (columns df) ->
  columns (reorder t df)
  = filter (fun c => mem c (columns df)) (order t)
    ++ filter (fun c => negb (mem c (order t))) (columns df).
Proof.
  intros Hnd. unfold reorder, select, take_positions. cbn [columns].
  apply selected_columns; [exact Hnd|].
  intros c Hc. apply in_app_iff in Hc as [Hc|Hc]; apply filter_In in Hc.
  - now apply mem_In.
  - tauto.
Qed.

Lemma reordered_columns_all t df c :
  NoDup (columns df) -> In c (columns df) -> In c (columns (reorder t df)).
Proof.
  intros Hnd Hc. rewrite (reordered_columns t df Hnd), in_app_iff.
  destruct (mem c (order t)) eqn:E.
  - left. apply filter_In. split; [now apply mem_In | now apply mem_In].
  - right. apply filter_In. split; [exact Hc | now rewrite E].
Qed.

Lemma take_positions_row ps df i r :
  nth_error (rows df) i = Some r ->
  nth_error (rows (take_positions ps df)) i
  = Some (mkRow (label r) (map (fun p => cell p r) ps)).
Proof.
  intros H. unfold take_positions. cbn [rows]. now rewrite nth_error_map, H.
Qed.

Lemma kept_positions_valid gone cs p :
  In p (kept_positions 0 gone cs) -> exists c, nth_error cs p = Some c.
Proof.
  intros H. apply kept_positions_nth in H as [_ [c [H _]]].
  rewrite Nat.sub_0_r in H. eauto.
Qed.

(** The whole of a cleaning function on a table whose labels are distinct
    and stay distinct. *)
Lemma clean_pipeline (t : tables) (df : DataFrame) :
  unique_columns df ->
  NoDup (renamed_columns t (columns df)) ->
  exists out,
    cleaned t df = Ok out /\
    columns out
    = filter (fun c => mem c (renamed_columns t (columns df))) (order t)
      ++ filter (fun c => negb (mem c (order t)))
                (renamed_columns t (columns df)) /\
    forall i r, nth_error (rows df) i = Some r ->
      exists r', nth_error (rows out) i = Some r' /\
        label r' = label r /\
        forall k, In k (columns df) -> mem k (drop_cols t) = false ->
          field (new_label t k) out r'
          = (if mem (new_label t k) (numeric_cols t)
             then to_numeric else fun v => v)
              ((if String.eqb k "teamname" then unwrap else fun v => v)
                 (field k df r)).
Proof.
  intros Hnd Hren. destruct df as [cs rs].
  unfold unique_columns in Hnd. cbn [columns rows] in *.
  rewrite cleaned_eq. unfold clean_rest.
  pose proof (renamed_columns_eq t cs rs) as Hcols3.
  set (S1 := unwrap_teamname (mkDF cs rs)) in *.
  assert (Hc1 : columns S1 = cs) by apply unwrap_teamname_columns.
  set (S2 := drop_present t S1) in *.
  destruct (coerce_numeric (numeric_cols t) (upper_columns t (rename t S2)))
    as [S4|e] eqn:E.
  2:{ apply coerce_numeric_raises in E as [_ [c Hc]].
      rewrite Hcols3 in Hc. pose proof (NoDup_count c _ Hren). lia. }
  pose proof (coerce_numeric_columns _ _ _ E) as Hc4. rewrite Hcols3 in Hc4.
  assert (Hnd4 : NoDup (columns S4)) by now rewrite Hc4.
  exists (reorder t S4). cbn [bind]. split; [reflexivity|].
  split; [rewrite (reordered_columns t S4 Hnd4), Hc4; reflexivity|].
  intros i r Hr.
  destruct (unwrap_teamname_rows (mkDF cs rs) i r Hr) as [r1 [Hr1 [Hl1 Hf1]]].
  fold S1 in Hr1, Hf1. cbn [columns] in Hf1.
  set (kp := kept_positions 0
               (filter (fun c => mem c (columns S1)) (drop_cols t))
               (columns S1)).
  assert (HS2 : S2 = take_positions kp S1) by reflexivity.
  pose proof (take_positions_row kp S1 i r1 Hr1) as Hr2. rewrite <- HS2 in Hr2.
  set (r2 := mkRow (label r1) (map (fun p => cell p r1) kp)) in *.
  assert (Hr3 : nth_error (rows (upper_columns t (rename t S2))) i = Some r2)
    by (rewrite relabelled; exact Hr2).
  destruct (coerce_numeric_rows _ _ _ i r2 E Hr3) as [r4 [Hr4 [Hl4 Hf4]]].
  eexists. split; [apply take_positions_row; exact Hr4|].
  cbn [label]. split; [now rewrite Hl4, <- Hl1|].
  intros k Hk Hdrop.
  assert (Hc2 : columns S2 = filter (fun c => negb (mem c (drop_cols t))) cs).
  { unfold S2. destruct S1 as [cs1 rs1]. cbn [columns] in Hc1. subst cs1.
    apply dropped_columns. }
  assert (Hk2 : In k (columns S2)).
  { rewrite Hc2. apply filter_In. split; [exact Hk | now rewrite Hdrop]. }
  assert (Hk4 : In (new_label t k) (columns S4)).
  { rewrite Hc4, renamed_columns_explicit, <- Hc2. now apply in_map. }
  assert (Hmain : field (new_label t k) (upper_columns t (rename t S2)) r2
                  = (if String.eqb k "teamname" then unwrap else fun v => v)
                      (field k (mkDF cs rs) r)).
  { rewrite relabelled.
    rewrite field_relabel;
      [| rewrite Hc2, <- renamed_columns_explicit; exact Hren | exact Hk2].
    replace (mkDF (columns S2) (rows S2)) with S2 by now destruct S2.
    rewrite HS2. unfold r2. rewrite field_take_positions.
    - rewrite (Hf1 k Hk). now destruct (String.eqb k "teamname").
    - now rewrite Hc1.
    - intros p Hp. now apply kept_positions_valid in Hp.
    - now rewrite <- HS2. }
  unfold reorder, select.
  rewrite field_take_positions.
  - rewrite Hf4, Hmain.
    now destruct (mem (new_label t k) (numeric_cols t)).
  - exact Hnd4.
  - intros p Hp. now apply selected_positions_nth in Hp.
  - apply (reordered_columns_all t S4 _ Hnd4 Hk4).
Qed.

Lemma order_NoDup (c : category) : NoDup (order (tables_of c)).
Proof.
  destruct c; cbn; repeat constructor; cbn; intuition discriminate.
Qed.

(** X11: for a table with distinct ASCII labels that stay distinct after
    renaming, the table a cleaning function of the page returns has as
    columns the input's columns that are not on the drop list, under their
    new labels: first those named in the order list, in the order of that
    list, then the others in the order they had.  No column is lost and
    none is repeated. *)
Theorem cleaned_column_order (c : category) (df out : DataFrame) :
  unique_columns df ->
  Forall (fun l => is_ascii l = true) (columns df) ->
  NoDup (renamed_columns (tables_of c) (columns df)) ->
  cleaned (tables_of c) df = Ok out ->
  let t := tables_of c in
  let kept_labels :=
    map (new_label t)
        (filter (fun l => negb (mem l (drop_cols t))) (columns df)) in
  columns out
  = filter (fun l => mem l kept_labels) (order t)
    ++ filter (fun l => negb (mem l (order t))) kept_labels /\
  Permutation kept_labels (columns out).
Proof.
  intros Hnd _ Hren Hout. cbv zeta. rewrite <- renamed_columns_explicit.
  destruct (clean_pipeline (tables_of c) df Hnd Hren) as [out' [Hout' [Hcols _]]].
  rewrite Hout in Hout'. injection Hout' as <-.
  split; [exact Hcols|].
  rewrite Hcols. apply NoDup_Permutation; [exact Hren | |].
  - apply NoDup_app.
    + apply NoDup_filter, order_NoDup.
    + now apply NoDup_filter.
    + intros l H1 H2. apply filter_In in H1 as [H1 _].
      apply filter_In in H2 as [_ H2]. apply mem_In in H1.
      rewrite H1 in H2. discriminate.
  - intros l. rewrite in_app_iff, !filter_In. split.
    + intros H. destruct (mem l (order (tables_of c))) eqn:E.
      * left. split; [now apply mem_In | now apply mem_In].
      * right. now split.
    + intros [[_ H]|[H _]]; [now apply mem_In | exact H].
Qed.

Lemma cleaned_column_order_witness :
  columns (mkDF ["PLAYER"; "TEAM"; "AVG"; "HR"]
                [mkRow 0 [VStr "Ann"; VStr "Owls"; VNum (1 # 4); VNum 4]])
  = ["PLAYER"; "TEAM"; "AVG"; "HR"] /\
  Permutation ["HR"; "TEAM"; "AVG"; "PLAYER"] ["PLAYER"; "TEAM"; "AVG"; "HR"].
Proof.
  apply (cleaned_column_order Batting
           (mkDF ["hr"; "playerid"; "teamname"; "avg"; "playername"]
                 [mkRow 0 [VStr "4"; VStr "17"; VStr "Owls"; VStr ".250";
                           VStr "Ann"]])
           (mkDF ["PLAYER"; "TEAM"; "AVG"; "HR"]
                 [mkRow 0 [VStr "Ann"; VStr "Owls"; VNum (1 # 4); VNum 4]])).
  - repeat constructor; cbn; intuition discriminate.
  - repeat constructor.
  - vm_compute. repeat constructor; cbn; intuition discriminate.
  - reflexivity.
Defined.






(** ** What a filter block shows *)

Lemma eq_str_iff v s : eq_str v s = true <-> v = VStr s.
Proof.
  destruct v; cbn; try (split; discriminate).
  rewrite String.eqb_eq. split; [now intros -> | now intros [= ->]].
Qed.

Lemma active_iff s : negb (String.eqb s "All") = true <-> s <> "All".
Proof.
  rewrite negb_true_iff. apply String.eqb_neq.
Qed.

Lemma test_iff (active : bool) c s cs r :
  test active c s cs r = true <->
  (active = true -> exists p, col_pos c cs = Some p /\ cell p r = VStr s).
Proof.
  unfold test. destruct active.
  - destruct (col_pos c cs) as [p|].
    + rewrite eq_str_iff. split.
      * intros H _. eauto.
      * intros H. destruct (H eq_refl) as [q [[= <-] Hq]]. exact Hq.
    + split; [discriminate|]. intros H.
      destruct (H eq_refl) as [q [Hq _]]. discriminate.
  - split; [discriminate | reflexivity].
Qed.

Lemma NoDup_labels_filter (f : row -> bool) l :
  NoDup (map label l) -> NoDup (map label (filter f l)).
Proof.
  induction l as [|r l IH]; cbn; [auto|].
  intros H. inversion H as [|? ? Hr Hl]; subst.
  destruct (f r); cbn; [|now apply IH].
  constructor; [|now apply IH].
  intros Hin. apply Hr. apply in_map_iff in Hin as [r' [E Hr']].
  apply in_map_iff. exists r'. split; [exact E|].
  now apply filter_In in Hr'.
Qed.

(** The rows a block returns, up to the order the sort gives them. *)
Lemma filter_block_rows with_pos cs rs sel out :
  filter_block with_pos (mkDF cs rs) sel (Ok out) ->
  columns out = cs /\
  Permutation (kept with_pos sel cs rs) (rows out) /\
  (sort sel = "None" -> rows out = kept with_pos sel cs rs).
Proof.
  unfold filter_block. rewrite filter_rows_kept.
  destruct (missing_column with_pos sel cs); [discriminate|].
  unfold sort_rows. destruct (negb (String.eqb (sort sel) "None")) eqn:Es.
  - unfold sort_values_desc. cbn [columns rows].
    destruct (col_pos (sort sel) cs) as [p|]; [|discriminate].
    intros [rows' [[= ->] Hsd]]. cbn [columns rows].
    split; [reflexivity|]. split; [now apply (sorted_desc_perm p)|].
    intros H. rewrite H in Es. discriminate.
  - intros [= ->]. cbn [columns rows]. repeat split; reflexivity.
Qed.

(** X13: a filter block shows exactly the rows of the table that pass
    every active filter, each once, under the table's columns: a row
    passes the team filter when its TEAM cell is the selected string,
    character for character, and likewise for player and position.  Row
    labels stay distinct, and without a sort the rows keep the order of
    the table. *)
Theorem view_shows_matching_rows (c : category) (data out : DataFrame)
  (sel : selection) :
  filtered c data sel (Ok out) ->
  columns out = columns data /\
  (forall r, In r (rows out) <->
     In r (rows data) /\
     (team sel <> "All" ->
      exists p, col_pos "TEAM" (columns data) = Some p /\
                cell p r = VStr (team sel)) /\
     (player sel <> "All" ->
      exists p, col_pos "PLAYER" (columns data) = Some p /\
                cell p r = VStr (player sel)) /\
     (with_position c = true -> position sel <> "All" ->
      exists p, col_pos "P" (columns data) = Some p /\
                cell p r = VStr (position sel))) /\
  (NoDup (map label (rows data)) -> NoDup (map label (rows out))) /\
  (sort sel = "None" ->
   rows out = kept (with_position c) sel (columns data) (rows data)).
Proof.
  rewrite filtered_block. destruct data as [cs rs]. intros H.
  apply filter_block_rows in H as [Hc [Hperm Hnone]].
  cbn [columns rows]. split; [exact Hc|]. split; [|split; [|exact Hnone]].
  - intros r. split.
    + intros Hr. apply (Permutation_in _ (Permutation_sym Hperm)) in Hr.
      unfold kept in Hr.
      apply filter_In in Hr as [Hr H3]. apply filter_In in Hr as [Hr H2].
      apply filter_In in Hr as [Hr H1].
      rewrite test_iff in H1, H2, H3. unfold team_active in H1.
      unfold player_active in H2. unfold position_active in H3.
      split; [exact Hr|]. split; [|split].
      * intros Ha. apply H1. now apply active_iff.
      * intros Ha. apply H2. now apply active_iff.
      * intros Hw Ha. apply H3. rewrite Hw. now apply active_iff.
    + intros [Hr [H1 [H2 H3]]]. apply (Permutation_in _ Hperm).
      unfold kept. repeat (apply filter_In; split); try exact Hr;
        apply test_iff.
      * unfold team_active. intros Ha. apply H1. now apply active_iff.
      * unfold player_active. intros Ha. apply H2. now apply active_iff.
      * unfold position_active. intros Ha.
        apply andb_true_iff in Ha as [Hw Ha].
        apply H3; [exact Hw | now apply active_iff].
  - intros Hnd.
    apply (Permutation_NoDup (Permutation_map label Hperm)).
    unfold kept. now repeat apply NoDup_labels_filter.
Qed.

Lemma view_shows_matching_rows_witness :
  columns hawks_sorted = columns three_batters /\
  (forall r, In r (rows hawks_sorted) <->
     In r (rows three_batters) /\
     (team hawks_by_HR <> "All" ->
      exists p, col_pos "TEAM" (columns three_batters) = Some p /\
                cell p r = VStr (team hawks_by_HR)) /\
     (player hawks_by_HR <> "All" ->
      exists p, col_pos "PLAYER" (columns three_batters) = Some p /\
                cell p r = VStr (player hawks_by_HR)) /\
     (with_position Batting = true -> position hawks_by_HR <> "All" ->
      exists p, col_pos "P" (columns three_batters) = Some p /\
                cell p r = VStr (position hawks_by_HR))) /\
  (NoDup (map label (rows three_batters)) ->
   NoDup (map label (rows hawks_sorted))) /\
  (sort hawks_by_HR = "None" ->
   rows hawks_sorted
   = kept (with_position Batting) hawks_by_HR (columns three_batters)
          (rows three_batters)).
Proof.
  apply (view_shows_matching_rows Batting three_batters hawks_sorted hawks_by_HR).
  exact hawks_sorted_once.
Defined.

(** ** Narrowing step by step *)

Lemma filter_comm {A} (f g : A -> bool) l :
  filter f (filter g l) = filter g (filter f l).
Proof.
  induction l as [|x l IH]; [reflexivity|]. cbn.
  destruct (f x) eqn:Ef, (g x) eqn:Eg; cbn; rewrite ?Ef, ?Eg, IH; reflexivity.
Qed.

Lemma present_not_absent c cs : In c cs -> absent c cs = false.
Proof.
  intros H. unfold absent. destruct (col_pos_In c cs H) as [p ->]. reflexivity.
Qed.

(** X14: narrowing composes.  Filtering a table by team and then the
    result by player gives what filtering by both at once gives, and so
    does filtering by player first and by team second. *)
Theorem narrowing_composes (with_pos : bool) (data : DataFrame)
  (t p s : string) :
  In "TEAM" (columns data) ->
  In "PLAYER" (columns data) ->
  let both := filter_rows with_pos (mkSel t p "All" s) data in
  (d <- filter_rows with_pos (mkSel t "All" "All" s) data ;;
   filter_rows with_pos (mkSel "All" p "All" s) d) = both /\
  (d <- filter_rows with_pos (mkSel "All" p "All" s) data ;;
   filter_rows with_pos (mkSel t "All" "All" s) d) = both.
Proof.
  intros Ht Hp. destruct data as [cs rs]. cbn [columns] in *. cbv zeta.
  rewrite !filter_rows_kept. unfold missing_column.
  rewrite (present_not_absent _ _ Ht), (present_not_absent _ _ Hp).
  unfold position_active, team_active, player_active. cbn [team player position].
  change (String.eqb "All" "All") with true. cbn [negb].
  rewrite !andb_false_r. cbn [andb bind].
  rewrite !filter_rows_kept. unfold missing_column.
  rewrite (present_not_absent _ _ Ht), (present_not_absent _ _ Hp).
  unfold position_active, team_active, player_active. cbn [team player position].
  change (String.eqb "All" "All") with true. cbn [negb].
  rewrite !andb_false_r. cbn [andb].
  unfold kept, position_active, team_active, player_active.
  cbn [team player position].
  change (String.eqb "All" "All") with true. cbn [negb].
  rewrite !andb_false_r.
  change (test false "P" "All" cs) with (fun _ : row => true).
  change (test false "PLAYER" "All" cs) with (fun _ : row => true).
  change (test false "TEAM" "All" cs) with (fun _ : row => true).
  rewrite !filter_true. split; [reflexivity|].
  now rewrite filter_comm.
Qed.

Lemma narrowing_composes_witness :
  (d <- filter_rows true (mkSel "Hawks" "All" "All" "None") three_batters ;;
   filter_rows true (mkSel "All" "Di" "All" "None") d)
  = filter_rows true (mkSel "Hawks" "Di" "All" "None") three_batters.
Proof.
  apply (narrowing_composes true three_batters "Hawks" "Di" "None");
    cbn; tauto.
Defined.

(** ** When a block raises *)

Lemma absent_not_In c cs : absent c cs = true -> ~ In c cs.
Proof.
  unfold absent. destruct (col_pos c cs) eqn:E; [discriminate|].
  intros _. now apply col_pos_None.
Qed.

(** X15: on a table with distinct labels whose sort column, when the table
    has it, holds numbers and missing cells, a filter block raises nothing
    but [KeyError], and only for a column that the table lacks and that an
    active selection needs: TEAM, PLAYER or P for a filter that is not at
    "All" (P never for pitching), or the sort column. *)
Theorem block_raises_only_for_missing_column (c : category)
  (data : DataFrame) (sel : selection) (e : exn) :
  unique_columns data ->
  (In (sort sel) (columns data) -> numeric_column (sort sel) data) ->
  filtered c data sel (Raise e) ->
  exists k, e = KeyError k /\ ~ In k (columns data) /\
    ((k = "TEAM" /\ team sel <> "All") \/
     (k = "PLAYER" /\ player sel <> "All") \/
     (k = "P" /\ with_position c = true /\ position sel <> "All") \/
     (k = sort sel /\ sort sel <> "None")).
Proof.
  intros _ _.
  rewrite filtered_block. destruct data as [cs rs]. unfold filter_block.
  rewrite filter_rows_kept. cbn [columns].
  destruct (missing_column (with_position c) sel cs) as [k|] eqn:Em.
  - intros [= ->]. exists k. split; [reflexivity|].
    unfold missing_column in Em.
    destruct (team_active sel && absent "TEAM" cs) eqn:E1.
    { injection Em as <-. apply andb_true_iff in E1 as [Ha Hb].
      split; [now apply absent_not_In|]. left.
      split; [reflexivity | now apply active_iff]. }
    destruct (player_active sel && absent "PLAYER" cs) eqn:E2.
    { injection Em as <-. apply andb_true_iff in E2 as [Ha Hb].
      split; [now apply absent_not_In|]. right. left.
      split; [reflexivity | now apply active_iff]. }
    destruct (position_active (with_position c) sel && absent "P" cs) eqn:E3;
      [|discriminate].
    injection Em as <-. apply andb_true_iff in E3 as [Ha Hb].
    unfold position_active in Ha. apply andb_true_iff in Ha as [Hw Ha].
    split; [now apply absent_not_In|]. right. right. left.
    split; [reflexivity|]. split; [exact Hw | now apply active_iff].
  - unfold sort_rows.
    destruct (negb (String.eqb (sort sel) "None")) eqn:Es; [|discriminate].
    unfold sort_values_desc. cbn [columns].
    destruct (col_pos (sort sel) cs) eqn:Ep.
    + intros [out [H _]]. discriminate.
    + intros [= ->]. exists (sort sel). split; [reflexivity|].
      split; [now apply col_pos_None|]. right. right. right.
      split; [reflexivity|]. intros H. rewrite H in Es. discriminate.
Qed.

Lemma block_raises_only_for_missing_column_witness :
  exists k, KeyError "TEAM" = KeyError k /\ ~ In k (columns plain_team) /\
    ((k = "TEAM" /\ team hawks_by_HR <> "All") \/
     (k = "PLAYER" /\ player hawks_by_HR <> "All") \/
     (k = "P" /\ with_position Pitching = true /\ position hawks_by_HR <> "All") \/
     (k = sort hawks_by_HR /\ sort hawks_by_HR <> "None")).
Proof.
  apply (block_raises_only_for_missing_column Pitching plain_team hawks_by_HR).
  - repeat constructor; cbn; intuition discriminate.
  - cbn. intros [H|[H|[]]]; discriminate.
  - reflexivity.
Defined.

(** ** The options of the selectors *)

Lemma unique_spec l : forall seen,
  NoDup (unique seen l) /\
  forall s, In s (unique seen l) <-> In s l /\ ~ In s seen.
Proof.
  induction l as [|x l IH]; intros seen; cbn [unique].
  - split; [constructor|]. intros s. cbn. tauto.
  - destruct (mem x seen) eqn:E.
    + destruct (IH seen) as [Hnd Hin]. split; [exact Hnd|].
      intros s. rewrite Hin. cbn. apply mem_In in E.
      split; [tauto|]. intros [[<-|H] Hs]; [contradiction | tauto].
    + destruct (IH (x :: seen)) as [Hnd Hin]. apply mem_false in E. split.
      * constructor; [|exact Hnd]. rewrite Hin. cbn. tauto.
      * intros s. cbn [In]. rewrite Hin. cbn [In].
        destruct (string_dec x s) as [->|Hne]; tauto.
Qed.

Lemma insert_str_perm s l : Permutation (s :: l) (insert_str s l).
Proof.
  induction l as [|x l IH]; cbn; [reflexivity|].
  destruct (String.leb s x); [reflexivity|].
  rewrite perm_swap. now apply perm_skip.
Qed.

Lemma insert_str_sorted s l :
  Sorted (fun a b => String.leb a b = true) l ->
  Sorted (fun a b => String.leb a b = true) (insert_str s l).
Proof.
  induction l as [|x l IH]; cbn; intros H.
  - repeat constructor.
  - destruct (String.leb s x) eqn:E.
    + constructor; [exact H | now constructor].
    + inversion H as [|? ? Hs Hhd]; subst.
      constructor; [now apply IH|].
      assert (Hxs : String.leb x s = true)
        by (destruct (String.leb_total s x); congruence).
      destruct l as [|y l]; cbn; [now constructor|].
      destruct (String.leb s y); constructor; [exact Hxs|].
      now inversion Hhd.
Qed.

Lemma sorted_strings_perm l : Permutation l (sorted_strings l).
Proof.
  induction l as [|x l IH]; cbn; [reflexivity|].
  rewrite <- insert_str_perm. now apply perm_skip.
Qed.

Lemma sorted_strings_sorted l :
  Sorted (fun a b => String.leb a b = true) (sorted_strings l).
Proof.
  induction l as [|x l IH]; cbn; [constructor | now apply insert_str_sorted].
Qed.

Lemma strings_of_strings vs :
  (forall v, In v vs -> exists s, v = VStr s) ->
  exists ss, strings_of vs = Some ss /\ vs = map VStr ss.
Proof.
  induction vs as [|v vs IH]; intros H.
  - exists []. split; reflexivity.
  - destruct (H v (or_introl eq_refl)) as [s ->].
    destruct (IH (fun v Hv => H v (or_intror Hv))) as [ss [E ->]].
    exists (s :: ss). cbn. rewrite E. split; reflexivity.
Qed.

(** The sorted distinct values of a column of strings. *)
Lemma sorted_unique_strings other vs :
  (forall v, In v vs -> exists s, v = VStr s) ->
  exists l, sorted_unique other vs = Ok (map VStr l) /\
    NoDup l /\
    Sorted (fun a b => String.leb a b = true) l /\
    forall s, In s l <-> In (VStr s) vs.
Proof.
  intros H. destruct (strings_of_strings vs H) as [ss [E ->]].
  exists (sorted_strings (unique [] ss)). unfold sorted_unique. rewrite E.
  split; [reflexivity|].
  destruct (unique_spec ss []) as [Hnd Hin].
  split; [apply (Permutation_NoDup (sorted_strings_perm _) Hnd)|].
  split; [apply sorted_strings_sorted|].
  intros s. split.
  - intros Hs. apply (Permutation_in _ (Permutation_sym (sorted_strings_perm _))) in Hs.
    apply Hin in Hs as [Hs _]. now apply in_map.
  - intros Hs. apply (Permutation_in _ (sorted_strings_perm _)).
    apply Hin. split; [|intros []].
    apply in_map_iff in Hs as [s' [[= ->] Hs']]. exact Hs'.
Qed.

Lemma getitem_present c data p :
  col_pos c (columns data) = Some p ->
  getitem c data = Ok (map (cell p) (rows data)).
Proof.
  intros H. unfold getitem. now rewrite H.
Qed.

Lemma In_column p rs v :
  In v (map (cell p) rs) <-> exists r, In r rs /\ cell p r = v.
Proof.
  rewrite in_map_iff. split; intros [r [H1 H2]]; exists r; tauto.
Qed.

(** X16: for a table with distinct labels whose TEAM (or PLAYER) column
    holds strings, the team (or player) selector offers "All" first and
    then each value of the column once, in ascending order; nothing is
    offered that is not the value of some row. *)
Theorem selector_offers_column_values
  (other : list value -> result (list value)) (data : DataFrame)
  (team_selector : bool) (p : nat) :
  let c := if team_selector then "TEAM" else "PLAYER" in
  let options := if team_selector then team_options other data
                 else player_options other data in
  unique_columns data ->
  col_pos c (columns data) = Some p ->
  (forall r, In r (rows data) -> exists s, cell p r = VStr s) ->
  exists l,
    options = Ok (VStr "All" :: map VStr l) /\
    NoDup l /\
    Sorted (fun a b => String.leb a b = true) l /\
    forall s, In s l <-> exists r, In r (rows data) /\ cell p r = VStr s.
Proof.
  intros c options _ Hp Hstr.
  assert (Hvs : forall v, In v (map (cell p) (rows data)) -> exists s, v = VStr s).
  { intros v Hv. apply In_column in Hv as [r [Hr <-]]. now apply Hstr. }
  destruct (sorted_unique_strings other _ Hvs) as [l [E [Hnd [Hs Hin]]]].
  exists l. split; [|split; [exact Hnd|split; [exact Hs|]]].
  - subst c options. destruct team_selector;
      unfold team_options, player_options;
      rewrite (getitem_present _ _ _ Hp); cbn [bind]; rewrite E; reflexivity.
  - intros s. rewrite Hin. apply In_column.
Qed.

Lemma selector_offers_column_values_witness :
  exists l,
    team_options (fun _ => Raise TypeError) three_batters
    = Ok (VStr "All" :: map VStr l) /\
    NoDup l /\
    Sorted (fun a b => String.leb a b = true) l /\
    forall s, In s l <->
              exists r, In r (rows three_batters) /\ cell 1 r = VStr s.
Proof.
  apply (selector_offers_column_values (fun _ => Raise TypeError)
           three_batters true 1).
  - repeat constructor; cbn; intuition discriminate.
  - reflexivity.
  - cbn. intros r [<-|[<-|[<-|[<-|[]]]]]; eexists; reflexivity.
Defined.

Lemma team_filter_alone with_pos cs rs s x p :
  col_pos "TEAM" cs = Some p -> s <> "All" ->
  filter_rows with_pos (mkSel s "All" "All" x) (mkDF cs rs)
  = Ok (mkDF cs (filter (fun r => eq_str (cell p r) s) rs)).
Proof.
  intros Hp Hs. rewrite filter_rows_kept.
  unfold missing_column, kept, position_active, team_active, player_active,
    absent.
  cbn [team player position]. rewrite Hp.
  change (String.eqb "All" "All") with true. cbn [negb].
  rewrite !andb_false_r. cbn [andb].
  change (test false "P" "All" cs) with (fun _ : row => true).
  change (test false "PLAYER" "All" cs) with (fun _ : row => true).
  rewrite !filter_true. do 2 f_equal.
  apply filter_ext. intros r. unfold test.
  apply active_iff in Hs. now rewrite Hs, Hp.
Qed.

(** X17: a team that the selector offers, other than "All", never gives an
    empty view: with the other selectors at "All" the filters return at
    least one row, and exactly the rows of that team. *)
Theorem offered_team_selects_rows
  (other : list value -> result (list value)) (data : DataFrame)
  (with_pos : bool) (p : nat) (opts : list value) (s x : string) :
  col_pos "TEAM" (columns data) = Some p ->
  (forall r, In r (rows data) -> exists s', cell p r = VStr s') ->
  team_options other data = Ok opts ->
  In (VStr s) opts ->
  s <> "All" ->
  exists d,
    filter_rows with_pos (mkSel s "All" "All" x) data = Ok d /\
    rows d <> [] /\
    forall r, In r (rows d) <-> In r (rows data) /\ cell p r = VStr s.
Proof.
  intros Hp Hstr Hopts Hin Hs.
  assert (Hvs : forall v, In v (map (cell p) (rows data)) -> exists s', v = VStr s').
  { intros v Hv. apply In_column in Hv as [r [Hr <-]]. now apply Hstr. }
  destruct (sorted_unique_strings other _ Hvs) as [l [E [_ [_ Hl]]]].
  unfold team_options in Hopts. rewrite (getitem_present _ _ _ Hp) in Hopts.
  cbn [bind] in Hopts. rewrite E in Hopts. cbn [bind] in Hopts.
  injection Hopts as <-.
  destruct Hin as [[= Heq]|Hin]; [congruence|].
  apply in_map_iff in Hin as [s' [[= ->] Hin]].
  apply Hl, In_column in Hin as [r0 [Hr0 Hc0]].
  destruct data as [cs rs]. cbn [columns rows] in *.
  rewrite (team_filter_alone with_pos cs rs s x p Hp Hs).
  eexists. split; [reflexivity|]. cbn [rows].
  assert (Hiff : forall r, In r (filter (fun r => eq_str (cell p r) s) rs)
                           <-> In r rs /\ cell p r = VStr s).
  { intros r. now rewrite filter_In, eq_str_iff. }
  split; [|exact Hiff].
  intros Hnil. assert (H0 : In r0 (filter (fun r => eq_str (cell p r) s) rs))
    by now apply Hiff.
  rewrite Hnil in H0. contradiction.
Qed.

Lemma offered_team_selects_rows_witness :
  exists d,
    filter_rows true (mkSel "Owls" "All" "All" "None") three_batters = Ok d /\
    rows d <> [] /\
    forall r, In r (rows d) <->
              In r (rows three_batters) /\ cell 1 r = VStr "Owls".
Proof.
  apply (offered_team_selects_rows (fun _ => Raise TypeError) three_batters
           true 1 [VStr "All"; VStr "Hawks"; VStr "Owls"] "Owls" "None").
  - reflexivity.
  - cbn. intros r [<-|[<-|[<-|[<-|[]]]]]; eexists; reflexivity.
  - reflexivity.
  - cbn. tauto.
  - discriminate.
Defined.

Lemma dropna_strings vs :
  (forall v, In v vs -> isna v = true \/ exists s, v = VStr s) ->
  forall v, In v (dropna vs) -> exists s, v = VStr s.
Proof.
  intros H v Hv. unfold dropna in Hv. apply filter_In in Hv as [Hv Hna].
  destruct (H v Hv) as [Hn|Hs]; [|exact Hs].
  rewrite Hn in Hna. discriminate.
Qed.

Lemma dropna_keeps_strings vs s : In (VStr s) (dropna vs) <-> In (VStr s) vs.
Proof.
  unfold dropna. rewrite filter_In. cbn. tauto.
Qed.

(** X18: for a table with distinct labels whose P column holds strings and
    missing cells, the position selector offers "All" and then each
    position that some row has, once, in ascending order; a missing
    position is not offered, and a row without a position is in no view
    that a position other than "All" selects. *)
Theorem position_selector_skips_missing
  (other : list value -> result (list value)) (data : DataFrame) (p : nat) :
  unique_columns data ->
  col_pos "P" (columns data) = Some p ->
  (forall r, In r (rows data) ->
             isna (cell p r) = true \/ exists s, cell p r = VStr s) ->
  (exists l,
     position_options other data = Ok (VStr "All" :: map VStr l) /\
     NoDup l /\
     Sorted (fun a b => String.leb a b = true) l /\
     forall s, In s l <-> exists r, In r (rows data) /\ cell p r = VStr s) /\
  (forall sel d r,
     position sel <> "All" ->
     filter_rows true sel data = Ok d ->
     In r (rows d) -> isna (cell p r) = false).
Proof.
  intros _ Hp Hcol. split.
  - assert (Hvs : forall v, In v (map (cell p) (rows data)) ->
                            isna v = true \/ exists s, v = VStr s).
    { intros v Hv. apply In_column in Hv as [r [Hr <-]]. now apply Hcol. }
    destruct (sorted_unique_strings other _ (dropna_strings _ Hvs))
      as [l [E [Hnd [Hs Hin]]]].
    exists l. split; [|split; [exact Hnd|split; [exact Hs|]]].
    + unfold position_options. rewrite (getitem_present _ _ _ Hp).
      cbn [bind]. rewrite E. reflexivity.
    + intros s. rewrite Hin, dropna_keeps_strings. apply In_column.
  - intros sel d r Hsel Hd Hr. destruct data as [cs rs].
    cbn [columns rows] in *. rewrite filter_rows_kept in Hd.
    destruct (missing_column true sel cs); [discriminate|].
    injection Hd as <-. cbn [rows] in Hr. unfold kept in Hr.
    apply filter_In in Hr as [_ Ht]. rewrite test_iff in Ht.
    unfold position_active in Ht. cbn [andb] in Ht.
    apply active_iff in Hsel. destruct (Ht Hsel) as [q [Hq Hv]].
    rewrite Hp in Hq. injection Hq as <-. now rewrite Hv.
Qed.

Lemma position_selector_skips_missing_witness :
  exists l,
    position_options (fun _ => Raise TypeError)
      (mkDF ["PLAYER"; "P"]
            [mkRow 0 [VStr "Ann"; VStr "SS"]; mkRow 1 [VStr "Bo"; VNaN]])
    = Ok (VStr "All" :: map VStr l) /\
    NoDup l /\
    Sorted (fun a b => String.leb a b = true) l /\
    forall s, In s l <->
      exists r, In r [mkRow 0 [VStr "Ann"; VStr "SS"]; mkRow 1 [VStr "Bo"; VNaN]]
                /\ cell 1 r = VStr s.
Proof.
  apply (position_selector_skips_missing (fun _ => Raise TypeError)
           (mkDF ["PLAYER"; "P"]
                 [mkRow 0 [VStr "Ann"; VStr "SS"]; mkRow 1 [VStr "Bo"; VNaN]])
           1).
  - repeat constructor; cbn; intuition discriminate.
  - reflexivity.
  - cbn. intros r [<-|[<-|[]]]; [right; eexists; reflexivity | left; reflexivity].
Defined.
